(** * ISO 3779 VIN validation: a model of [src/index.ts] and its properties

    The library is a family of pure functions over ECMAScript strings.  The
    first part of this file models the pieces of the ECMAScript host the
    source calls ([String.prototype.replace] with a global character-class
    pattern, [trim], [toUpperCase], indexing, template literals, exceptions);
    the second part embeds the source, function by function; the third part
    states and proves its properties. *)

From Stdlib Require Import NArith Lia String Ascii DecimalString.
From stdpp Require Import base option list gmap.

Local Open Scope N_scope.

(** ** ECMAScript strings

    A string value is a finite sequence of 16-bit code units; [length] and
    indexing count code units.  [s !! i] is the code unit at index [i], and
    [None] where JavaScript yields [undefined]. *)

Module JS.

Abbreviation jsstring := (list N).

(** A Rocq literal of ASCII characters as a string of code units. *)
Fixpoint lit (s : string) : jsstring :=
  match s with
  | EmptyString => []
  | String a r => N_of_ascii a :: lit r
  end.

(** [s[i]]: a one-unit string, or [undefined]. *)
Definition at_index (s : jsstring) (i : nat) : option jsstring :=
  match s !! i with
  | Some u => Some [u]
  | None => None
  end.

(** [ToString] of a value that is a string or [undefined] (template
    literals and property keys apply it). *)
Definition to_string (v : option jsstring) : jsstring :=
  match v with
  | Some s => s
  | None => lit "undefined"
  end.

(** [String(n)] for a non-negative integer: its decimal digits. *)
Definition string_of_number (n : N) : jsstring :=
  lit (NilZero.string_of_uint (N.to_uint n)).

(** [xs.join(sep)]. *)
Fixpoint join (sep : jsstring) (xs : list jsstring) : jsstring :=
  match xs with
  | [] => []
  | [x] => x
  | x :: rest => x ++ sep ++ join sep rest
  end.

(** *** White space

    [\s] in a pattern and [trim] use the same set: the WhiteSpace and
    LineTerminator code points (TAB, LF, VT, FF, CR, SP, NBSP, ZWNBSP, the
    category Zs and U+2028, U+2029). *)
Definition is_white_space (u : N) : bool :=
  ((0x9 <=? u) && (u <=? 0xD)) || (u =? 0x20) || (u =? 0xA0) || (u =? 0x1680)
  || ((0x2000 <=? u) && (u <=? 0x200A)) || (u =? 0x2028) || (u =? 0x2029)
  || (u =? 0x202F) || (u =? 0x205F) || (u =? 0x3000) || (u =? 0xFEFF).

(** [s.replace(/[C]+/g, '')] for a character class [C]: every maximal run of
    class members is matched and replaced by the empty string, so exactly
    the members of the class disappear. *)
Fixpoint remove_runs (cls : N -> bool) (s : jsstring) : jsstring :=
  match s with
  | [] => []
  | u :: r => if cls u then remove_runs cls r else u :: remove_runs cls r
  end.

Fixpoint trim_start (s : jsstring) : jsstring :=
  match s with
  | [] => []
  | u :: r => if is_white_space u then trim_start r else s
  end.

Definition trim_end (s : jsstring) : jsstring := rev (trim_start (rev s)).

Definition trim (s : jsstring) : jsstring := trim_end (trim_start s).

(** *** UTF-16

    [toUpperCase] works on code points: a high surrogate immediately
    followed by a low surrogate is one supplementary code point, every other
    code unit (a lone surrogate too) stands for itself. *)
Definition is_high (u : N) : bool := (0xD800 <=? u) && (u <=? 0xDBFF).
Definition is_low (u : N) : bool := (0xDC00 <=? u) && (u <=? 0xDFFF).

Inductive token : Type :=
  | Unit (u : N)
  | Pair (h l : N).

Fixpoint decode (s : jsstring) : list token :=
  match s with
  | [] => []
  | h :: r =>
      match r with
      | l :: r' =>
          if is_high h && is_low l then Pair h l :: decode r'
          else Unit h :: decode r
      | [] => [Unit h]
      end
  end.

Definition code_point (h l : N) : N :=
  0x10000 + (h - 0xD800) * 0x400 + (l - 0xDC00).

Definition utf16_pair (cp : N) : jsstring :=
  [0xD800 + (cp - 0x10000) / 0x400; 0xDC00 + (cp - 0x10000) mod 0x400].

(** *** Unicode case conversion

    [toUpperCase] is the locale-independent Unicode default case conversion:
    the unconditional multi-character mappings of SpecialCasing.txt first,
    then the simple uppercase mapping of UnicodeData.txt (data of Unicode
    14.0).  A simple mapping is stored as a run [(first, last, step, image
    of first)]: code point [c] of the run has the image
    [image of first + (c - first)]. *)
Definition case_run : Type := N * N * N * N.

Definition in_run (c : N) (r : case_run) : bool :=
  let '(lo, hi, step, _) := r in
  (lo <=? c) && (c <=? hi) && ((c - lo) mod step =? 0).

Fixpoint simple_upper (tbl : list case_run) (c : N) : option N :=
  match tbl with
  | [] => None
  | r :: rest =>
      if in_run c r then let '(lo, _, _, img) := r in Some (img + (c - lo))
      else simple_upper rest c
  end.

Fixpoint special_upper (tbl : list (N * jsstring)) (c : N) : option jsstring :=
  match tbl with
  | [] => None
  | (k, img) :: rest => if k =? c then Some img else special_upper rest c
  end.

Definition bmp_runs : list case_run :=
  [
    (0x61, 0x7A, 1, 0x41); (0xB5, 0xB5, 1, 0x39C); (0xE0, 0xF6, 1, 0xC0);
    (0xF8, 0xFE, 1, 0xD8); (0xFF, 0xFF, 1, 0x178); (0x101, 0x12F, 2, 0x100);
    (0x131, 0x131, 1, 0x49); (0x133, 0x137, 2, 0x132); (0x13A, 0x148, 2, 0x139);
    (0x14B, 0x177, 2, 0x14A); (0x17A, 0x17E, 2, 0x179); (0x17F, 0x17F, 1, 0x53);
    (0x180, 0x180, 1, 0x243); (0x183, 0x185, 2, 0x182); (0x188, 0x188, 1, 0x187);
    (0x18C, 0x18C, 1, 0x18B); (0x192, 0x192, 1, 0x191); (0x195, 0x195, 1, 0x1F6);
    (0x199, 0x199, 1, 0x198); (0x19A, 0x19A, 1, 0x23D); (0x19E, 0x19E, 1, 0x220);
    (0x1A1, 0x1A5, 2, 0x1A0); (0x1A8, 0x1A8, 1, 0x1A7); (0x1AD, 0x1AD, 1, 0x1AC);
    (0x1B0, 0x1B0, 1, 0x1AF); (0x1B4, 0x1B6, 2, 0x1B3); (0x1B9, 0x1B9, 1, 0x1B8);
    (0x1BD, 0x1BD, 1, 0x1BC); (0x1BF, 0x1BF, 1, 0x1F7); (0x1C5, 0x1C5, 1, 0x1C4);
    (0x1C6, 0x1C6, 1, 0x1C4); (0x1C8, 0x1C8, 1, 0x1C7); (0x1C9, 0x1C9, 1, 0x1C7);
    (0x1CB, 0x1CB, 1, 0x1CA); (0x1CC, 0x1CC, 1, 0x1CA); (0x1CE, 0x1DC, 2, 0x1CD);
    (0x1DD, 0x1DD, 1, 0x18E); (0x1DF, 0x1EF, 2, 0x1DE); (0x1F2, 0x1F2, 1, 0x1F1);
    (0x1F3, 0x1F3, 1, 0x1F1); (0x1F5, 0x1F5, 1, 0x1F4); (0x1F9, 0x21F, 2, 0x1F8);
    (0x223, 0x233, 2, 0x222); (0x23C, 0x23C, 1, 0x23B); (0x23F, 0x240, 1, 0x2C7E);
    (0x242, 0x242, 1, 0x241); (0x247, 0x24F, 2, 0x246); (0x250, 0x250, 1, 0x2C6F);
    (0x251, 0x251, 1, 0x2C6D); (0x252, 0x252, 1, 0x2C70); (0x253, 0x253, 1, 0x181);
    (0x254, 0x254, 1, 0x186); (0x256, 0x257, 1, 0x189); (0x259, 0x259, 1, 0x18F);
    (0x25B, 0x25B, 1, 0x190); (0x25C, 0x25C, 1, 0xA7AB); (0x260, 0x260, 1, 0x193);
    (0x261, 0x261, 1, 0xA7AC); (0x263, 0x263, 1, 0x194); (0x265, 0x265, 1, 0xA78D);
    (0x266, 0x266, 1, 0xA7AA); (0x268, 0x268, 1, 0x197); (0x269, 0x269, 1, 0x196);
    (0x26A, 0x26A, 1, 0xA7AE); (0x26B, 0x26B, 1, 0x2C62); (0x26C, 0x26C, 1, 0xA7AD);
    (0x26F, 0x26F, 1, 0x19C); (0x271, 0x271, 1, 0x2C6E); (0x272, 0x272, 1, 0x19D);
    (0x275, 0x275, 1, 0x19F); (0x27D, 0x27D, 1, 0x2C64); (0x280, 0x280, 1, 0x1A6);
    (0x282, 0x282, 1, 0xA7C5); (0x283, 0x283, 1, 0x1A9); (0x287, 0x287, 1, 0xA7B1);
    (0x288, 0x288, 1, 0x1AE); (0x289, 0x289, 1, 0x244); (0x28A, 0x28B, 1, 0x1B1);
    (0x28C, 0x28C, 1, 0x245); (0x292, 0x292, 1, 0x1B7); (0x29D, 0x29D, 1, 0xA7B2);
    (0x29E, 0x29E, 1, 0xA7B0); (0x345, 0x345, 1, 0x399); (0x371, 0x373, 2, 0x370);
    (0x377, 0x377, 1, 0x376); (0x37B, 0x37D, 1, 0x3FD); (0x3AC, 0x3AC, 1, 0x386);
    (0x3AD, 0x3AF, 1, 0x388); (0x3B1, 0x3C1, 1, 0x391); (0x3C2, 0x3C2, 1, 0x3A3);
    (0x3C3, 0x3CB, 1, 0x3A3); (0x3CC, 0x3CC, 1, 0x38C); (0x3CD, 0x3CE, 1, 0x38E);
    (0x3D0, 0x3D0, 1, 0x392); (0x3D1, 0x3D1, 1, 0x398); (0x3D5, 0x3D5, 1, 0x3A6);
    (0x3D6, 0x3D6, 1, 0x3A0); (0x3D7, 0x3D7, 1, 0x3CF); (0x3D9, 0x3EF, 2, 0x3D8);
    (0x3F0, 0x3F0, 1, 0x39A); (0x3F1, 0x3F1, 1, 0x3A1); (0x3F2, 0x3F2, 1, 0x3F9);
    (0x3F3, 0x3F3, 1, 0x37F); (0x3F5, 0x3F5, 1, 0x395); (0x3F8, 0x3F8, 1, 0x3F7);
    (0x3FB, 0x3FB, 1, 0x3FA); (0x430, 0x44F, 1, 0x410); (0x450, 0x45F, 1, 0x400);
    (0x461, 0x481, 2, 0x460); (0x48B, 0x4BF, 2, 0x48A); (0x4C2, 0x4CE, 2, 0x4C1);
    (0x4CF, 0x4CF, 1, 0x4C0); (0x4D1, 0x52F, 2, 0x4D0); (0x561, 0x586, 1, 0x531);
    (0x10D0, 0x10FA, 1, 0x1C90); (0x10FD, 0x10FF, 1, 0x1CBD); (0x13F8, 0x13FD, 1, 0x13F0);
    (0x1C80, 0x1C80, 1, 0x412); (0x1C81, 0x1C81, 1, 0x414); (0x1C82, 0x1C82, 1, 0x41E);
    (0x1C83, 0x1C84, 1, 0x421); (0x1C85, 0x1C85, 1, 0x422); (0x1C86, 0x1C86, 1, 0x42A);
    (0x1C87, 0x1C87, 1, 0x462); (0x1C88, 0x1C88, 1, 0xA64A); (0x1D79, 0x1D79, 1, 0xA77D);
    (0x1D7D, 0x1D7D, 1, 0x2C63); (0x1D8E, 0x1D8E, 1, 0xA7C6); (0x1E01, 0x1E95, 2, 0x1E00);
    (0x1E9B, 0x1E9B, 1, 0x1E60); (0x1EA1, 0x1EFF, 2, 0x1EA0); (0x1F00, 0x1F07, 1, 0x1F08);
    (0x1F10, 0x1F15, 1, 0x1F18); (0x1F20, 0x1F27, 1, 0x1F28); (0x1F30, 0x1F37, 1, 0x1F38);
    (0x1F40, 0x1F45, 1, 0x1F48); (0x1F51, 0x1F57, 2, 0x1F59); (0x1F60, 0x1F67, 1, 0x1F68);
    (0x1F70, 0x1F71, 1, 0x1FBA); (0x1F72, 0x1F75, 1, 0x1FC8); (0x1F76, 0x1F77, 1, 0x1FDA);
    (0x1F78, 0x1F79, 1, 0x1FF8); (0x1F7A, 0x1F7B, 1, 0x1FEA); (0x1F7C, 0x1F7D, 1, 0x1FFA);
    (0x1FB0, 0x1FB1, 1, 0x1FB8); (0x1FBE, 0x1FBE, 1, 0x399); (0x1FD0, 0x1FD1, 1, 0x1FD8);
    (0x1FE0, 0x1FE1, 1, 0x1FE8); (0x1FE5, 0x1FE5, 1, 0x1FEC); (0x214E, 0x214E, 1, 0x2132);
    (0x2170, 0x217F, 1, 0x2160); (0x2184, 0x2184, 1, 0x2183); (0x24D0, 0x24E9, 1, 0x24B6);
    (0x2C30, 0x2C5F, 1, 0x2C00); (0x2C61, 0x2C61, 1, 0x2C60); (0x2C65, 0x2C65, 1, 0x23A);
    (0x2C66, 0x2C66, 1, 0x23E); (0x2C68, 0x2C6C, 2, 0x2C67); (0x2C73, 0x2C73, 1, 0x2C72);
    (0x2C76, 0x2C76, 1, 0x2C75); (0x2C81, 0x2CE3, 2, 0x2C80); (0x2CEC, 0x2CEE, 2, 0x2CEB);
    (0x2CF3, 0x2CF3, 1, 0x2CF2); (0x2D00, 0x2D25, 1, 0x10A0); (0x2D27, 0x2D27, 1, 0x10C7);
    (0x2D2D, 0x2D2D, 1, 0x10CD); (0xA641, 0xA66D, 2, 0xA640); (0xA681, 0xA69B, 2, 0xA680);
    (0xA723, 0xA72F, 2, 0xA722); (0xA733, 0xA76F, 2, 0xA732); (0xA77A, 0xA77C, 2, 0xA779);
    (0xA77F, 0xA787, 2, 0xA77E); (0xA78C, 0xA78C, 1, 0xA78B); (0xA791, 0xA793, 2, 0xA790);
    (0xA794, 0xA794, 1, 0xA7C4); (0xA797, 0xA7A9, 2, 0xA796); (0xA7B5, 0xA7C3, 2, 0xA7B4);
    (0xA7C8, 0xA7CA, 2, 0xA7C7); (0xA7D1, 0xA7D1, 1, 0xA7D0); (0xA7D7, 0xA7D9, 2, 0xA7D6);
    (0xA7F6, 0xA7F6, 1, 0xA7F5); (0xAB53, 0xAB53, 1, 0xA7B3); (0xAB70, 0xABBF, 1, 0x13A0);
    (0xFF41, 0xFF5A, 1, 0xFF21)
  ].

Definition supplementary_runs : list case_run :=
  [
    (0x10428, 0x1044F, 1, 0x10400); (0x104D8, 0x104FB, 1, 0x104B0);
    (0x10597, 0x105A1, 1, 0x10570); (0x105A3, 0x105B1, 1, 0x1057C);
    (0x105B3, 0x105B9, 1, 0x1058C); (0x105BB, 0x105BC, 1, 0x10594);
    (0x10CC0, 0x10CF2, 1, 0x10C80); (0x118C0, 0x118DF, 1, 0x118A0);
    (0x16E60, 0x16E7F, 1, 0x16E40); (0x1E922, 0x1E943, 1, 0x1E900)
  ].

Definition special_casing : list (N * jsstring) :=
  [
    (0xDF, [0x53; 0x53]); (0x149, [0x2BC; 0x4E]); (0x1F0, [0x4A; 0x30C]);
    (0x390, [0x399; 0x308; 0x301]); (0x3B0, [0x3A5; 0x308; 0x301]); (0x587, [0x535; 0x552]);
    (0x1E96, [0x48; 0x331]); (0x1E97, [0x54; 0x308]); (0x1E98, [0x57; 0x30A]);
    (0x1E99, [0x59; 0x30A]); (0x1E9A, [0x41; 0x2BE]); (0x1F50, [0x3A5; 0x313]);
    (0x1F52, [0x3A5; 0x313; 0x300]); (0x1F54, [0x3A5; 0x313; 0x301]); (0x1F56, [0x3A5; 0x313; 0x342]);
    (0x1F80, [0x1F08; 0x399]); (0x1F81, [0x1F09; 0x399]); (0x1F82, [0x1F0A; 0x399]);
    (0x1F83, [0x1F0B; 0x399]); (0x1F84, [0x1F0C; 0x399]); (0x1F85, [0x1F0D; 0x399]);
    (0x1F86, [0x1F0E; 0x399]); (0x1F87, [0x1F0F; 0x399]); (0x1F88, [0x1F08; 0x399]);
    (0x1F89, [0x1F09; 0x399]); (0x1F8A, [0x1F0A; 0x399]); (0x1F8B, [0x1F0B; 0x399]);
    (0x1F8C, [0x1F0C; 0x399]); (0x1F8D, [0x1F0D; 0x399]); (0x1F8E, [0x1F0E; 0x399]);
    (0x1F8F, [0x1F0F; 0x399]); (0x1F90, [0x1F28; 0x399]); (0x1F91, [0x1F29; 0x399]);
    (0x1F92, [0x1F2A; 0x399]); (0x1F93, [0x1F2B; 0x399]); (0x1F94, [0x1F2C; 0x399]);
    (0x1F95, [0x1F2D; 0x399]); (0x1F96, [0x1F2E; 0x399]); (0x1F97, [0x1F2F; 0x399]);
    (0x1F98, [0x1F28; 0x399]); (0x1F99, [0x1F29; 0x399]); (0x1F9A, [0x1F2A; 0x399]);
    (0x1F9B, [0x1F2B; 0x399]); (0x1F9C, [0x1F2C; 0x399]); (0x1F9D, [0x1F2D; 0x399]);
    (0x1F9E, [0x1F2E; 0x399]); (0x1F9F, [0x1F2F; 0x399]); (0x1FA0, [0x1F68; 0x399]);
    (0x1FA1, [0x1F69; 0x399]); (0x1FA2, [0x1F6A; 0x399]); (0x1FA3, [0x1F6B; 0x399]);
    (0x1FA4, [0x1F6C; 0x399]); (0x1FA5, [0x1F6D; 0x399]); (0x1FA6, [0x1F6E; 0x399]);
    (0x1FA7, [0x1F6F; 0x399]); (0x1FA8, [0x1F68; 0x399]); (0x1FA9, [0x1F69; 0x399]);
    (0x1FAA, [0x1F6A; 0x399]); (0x1FAB, [0x1F6B; 0x399]); (0x1FAC, [0x1F6C; 0x399]);
    (0x1FAD, [0x1F6D; 0x399]); (0x1FAE, [0x1F6E; 0x399]); (0x1FAF, [0x1F6F; 0x399]);
    (0x1FB2, [0x1FBA; 0x399]); (0x1FB3, [0x391; 0x399]); (0x1FB4, [0x386; 0x399]);
    (0x1FB6, [0x391; 0x342]); (0x1FB7, [0x391; 0x342; 0x399]); (0x1FBC, [0x391; 0x399]);
    (0x1FC2, [0x1FCA; 0x399]); (0x1FC3, [0x397; 0x399]); (0x1FC4, [0x389; 0x399]);
    (0x1FC6, [0x397; 0x342]); (0x1FC7, [0x397; 0x342; 0x399]); (0x1FCC, [0x397; 0x399]);
    (0x1FD2, [0x399; 0x308; 0x300]); (0x1FD3, [0x399; 0x308; 0x301]); (0x1FD6, [0x399; 0x342]);
    (0x1FD7, [0x399; 0x308; 0x342]); (0x1FE2, [0x3A5; 0x308; 0x300]); (0x1FE3, [0x3A5; 0x308; 0x301]);
    (0x1FE4, [0x3A1; 0x313]); (0x1FE6, [0x3A5; 0x342]); (0x1FE7, [0x3A5; 0x308; 0x342]);
    (0x1FF2, [0x1FFA; 0x399]); (0x1FF3, [0x3A9; 0x399]); (0x1FF4, [0x38F; 0x399]);
    (0x1FF6, [0x3A9; 0x342]); (0x1FF7, [0x3A9; 0x342; 0x399]); (0x1FFC, [0x3A9; 0x399]);
    (0xFB00, [0x46; 0x46]); (0xFB01, [0x46; 0x49]); (0xFB02, [0x46; 0x4C]);
    (0xFB03, [0x46; 0x46; 0x49]); (0xFB04, [0x46; 0x46; 0x4C]); (0xFB05, [0x53; 0x54]);
    (0xFB06, [0x53; 0x54]); (0xFB13, [0x544; 0x546]); (0xFB14, [0x544; 0x535]);
    (0xFB15, [0x544; 0x53B]); (0xFB16, [0x54E; 0x546]); (0xFB17, [0x544; 0x53D])
  ].

(** The image of a code unit that is not part of a surrogate pair. *)
Definition upper_unit (u : N) : jsstring :=
  match special_upper special_casing u with
  | Some img => img
  | None =>
      match simple_upper bmp_runs u with
      | Some d => [d]
      | None => [u]
      end
  end.

(** The image of a supplementary code point. *)
Definition upper_supplementary (cp : N) : N :=
  match simple_upper supplementary_runs cp with
  | Some d => d
  | None => cp
  end.

(** The image of a token, in code units: the image of a supplementary code
    point is encoded as a surrogate pair again. *)
Definition upper_token (t : token) : jsstring :=
  match t with
  | Unit u => upper_unit u
  | Pair h l => utf16_pair (upper_supplementary (code_point h l))
  end.

Definition toUpperCase (s : jsstring) : jsstring :=
  flat_map upper_token (decode s).

(** *** Exceptions

    The only thrown values are [Error] objects; an evaluation either returns
    a value or completes abruptly with the thrown error. *)
Inductive error : Type := Error (message : jsstring).

Inductive completion (A : Type) : Type :=
  | Return (a : A)
  | Throw (e : error).
Arguments Return {A} a.
Arguments Throw {A} e.

End JS.

(** ** The source: [src/index.ts] *)

Module Vin.
Import JS.

Definition code (a : ascii) : N := N_of_ascii a.

Definition VIN_LENGTH : nat := 17.

(** [VIN_REGEX = /^[A-HJ-NPR-Z0-9]{17}$/]: no flag, so [test] keeps no
    state, [^] and [$] are the two ends of the string. *)
Definition VIN_REGEX_class (u : N) : bool :=
  ((code "A" <=? u) && (u <=? code "H"))
  || ((code "J" <=? u) && (u <=? code "N"))
  || (u =? code "P")
  || ((code "R" <=? u) && (u <=? code "Z"))
  || ((code "0" <=? u) && (u <=? code "9")).

Definition VIN_REGEX_test (s : jsstring) : bool :=
  (length s =? 17)%nat && forallb VIN_REGEX_class s.

Definition WEIGHTS : list N :=
  [8; 7; 6; 5; 4; 3; 2; 10; 0; 9; 8; 7; 6; 5; 4; 3; 2].

(** [MAP]: a plain object used as a dictionary from property keys to
    numbers.  Every key the source looks up is a one-unit string or
    ["undefined"]; no property inherited from [Object.prototype] has such a
    name, so the lookup sees the own properties only, listed here in the
    order of the object literal. *)
Definition MAP_properties : list (jsstring * N) :=
  [ (lit "0", 0); (lit "1", 1); (lit "2", 2); (lit "3", 3); (lit "4", 4);
    (lit "5", 5); (lit "6", 6); (lit "7", 7); (lit "8", 8); (lit "9", 9);
    (lit "A", 1); (lit "B", 2); (lit "C", 3); (lit "D", 4); (lit "E", 5);
    (lit "F", 6); (lit "G", 7); (lit "H", 8);
    (lit "J", 1); (lit "K", 2); (lit "L", 3); (lit "M", 4); (lit "N", 5);
    (lit "P", 7); (lit "R", 9);
    (lit "S", 2); (lit "T", 3); (lit "U", 4); (lit "V", 5); (lit "W", 6);
    (lit "X", 7); (lit "Y", 8); (lit "Z", 9) ].

Definition MAP : gmap jsstring N := list_to_map MAP_properties.

Inductive VinErrorCode : Type :=
  | INVALID_LENGTH
  | INVALID_CHARACTERS
  | INVALID_CHECK_DIGIT.

#[global] Instance VinErrorCode_eq_dec : EqDecision VinErrorCode.
Proof. solve_decision. Defined.

(** The string each code is in the source. *)
Definition code_text (c : VinErrorCode) : jsstring :=
  match c with
  | INVALID_LENGTH => lit "INVALID_LENGTH"
  | INVALID_CHARACTERS => lit "INVALID_CHARACTERS"
  | INVALID_CHECK_DIGIT => lit "INVALID_CHECK_DIGIT"
  end.

Record ValidationResult : Type := {
  isValid : bool;
  vin : jsstring;
  errors : list VinErrorCode;
  checkDigit : jsstring;
  expectedCheckDigit : jsstring
}.

(** The class of the pattern [/[\s-]+/g] of [normalizeVIN]: white space and
    the hyphen. *)
Definition separator (u : N) : bool := is_white_space u || (u =? code "-").

Definition normalizeVIN (input : jsstring) : jsstring :=
  toUpperCase (trim (remove_runs separator input)).

(** The loop of [computeCheckDigit]: [todo] iterations are left, [i] is the
    loop variable ([i = VIN_LENGTH - todo]) and [sum] the accumulator.
    [WEIGHTS[i]] is in range at every iteration. *)
Fixpoint weighted_sum_from (v : jsstring) (todo i : nat) (sum : N)
  : completion N :=
  match todo with
  | O => Return sum
  | S todo' =>
      let ch := at_index v i in
      match MAP !! to_string ch with
      | None =>
          Throw (Error (lit "Invalid character '" ++ to_string ch
                        ++ lit "' at position "
                        ++ string_of_number (N.of_nat (i + 1))))
      | Some val =>
          weighted_sum_from v todo' (S i) (sum + val * default 0 (WEIGHTS !! i))
      end
  end.

Definition computeCheckDigit (vin : jsstring) : completion jsstring :=
  let v := toUpperCase vin in
  match weighted_sum_from v VIN_LENGTH 0 0 with
  | Throw e => Throw e
  | Return sum =>
      let remainder := sum mod 11 in
      Return (if remainder =? 10 then lit "X" else string_of_number remainder)
  end.

(** *** The body of [validateVIN]

    [errors] and [expected] are locals the body updates in place, and the
    [try] block can be left by an exception after some of the updates; the
    body is written in a state monad whose state (the two locals) survives a
    [Throw]. *)
Record frame : Type := { f_errors : list VinErrorCode; f_expected : jsstring }.

Definition proc (A : Type) : Type := frame -> frame * completion A.

#[global] Instance proc_ret : MRet proc := λ A a st, (st, Return a).

#[global] Instance proc_bind : MBind proc := λ A B k m st,
  match m st with
  | (st', Return a) => k a st'
  | (st', Throw e) => (st', Throw e)
  end.

Definition lift {A} (c : completion A) : proc A := λ st, (st, c).

Definition get_frame : proc frame := λ st, (st, Return st).

Definition push (c : VinErrorCode) : proc unit := λ st,
  ({| f_errors := f_errors st ++ [c]; f_expected := f_expected st |}, Return ()).

Definition set_expected (s : jsstring) : proc unit := λ st,
  ({| f_errors := f_errors st; f_expected := s |}, Return ()).

Definition when (b : bool) (m : proc unit) : proc unit :=
  if b then m else mret ().

(** [try { m } catch { h }]. *)
Definition try_catch {A} (m h : proc A) : proc A := λ st,
  match m st with
  | (st', Throw _) => h st'
  | r => r
  end.

Definition run {A} (m : proc A) (st : frame) : completion A := (m st).2.

Definition validateVIN (input : jsstring) : completion ValidationResult :=
  let vin := normalizeVIN input in
  run
    (when (negb (length vin =? VIN_LENGTH)%nat) (push INVALID_LENGTH);;
     when (negb (VIN_REGEX_test vin)) (push INVALID_CHARACTERS);;
     try_catch
       (when (length vin =? VIN_LENGTH)%nat
          (e ← lift (computeCheckDigit vin);
           set_expected e;;
           let actual := at_index vin 8 in
           st ← get_frame;
           when (VIN_REGEX_test vin
                 && negb (bool_decide (actual = Some (f_expected st))))
             (push INVALID_CHECK_DIGIT)))
       (mret ());;
     st ← get_frame;
     mret {| isValid := (length (f_errors st) =? 0)%nat;
             vin := vin;
             errors := f_errors st;
             checkDigit := default [] (at_index vin 8);
             expectedCheckDigit := f_expected st |})
    {| f_errors := []; f_expected := lit "N/A" |}.

Definition isValidVIN (vin : jsstring) : completion bool :=
  match validateVIN vin with
  | Return res => Return (isValid res)
  | Throw e => Throw e
  end.

Definition assertVIN (input : jsstring) : completion jsstring :=
  match validateVIN input with
  | Throw e => Throw e
  | Return res =>
      if negb (isValid res) then
        let detail := join (lit ", ") (code_text <$> errors res) in
        Throw (Error (lit "Invalid VIN: " ++ detail
                      ++ lit " (expected check digit: "
                      ++ expectedCheckDigit res ++ lit ")"))
      else Return (vin res)
  end.

End Vin.

(** ** Notions used in the statements and in the proofs *)

Module Notions.
Import JS Vin.

(** *** The case tables, entry by entry *)

(** The code points of a run, each with its image. *)
Definition run_points (r : case_run) : list (N * N) :=
  let '(lo, hi, step, img) := r in
  (λ i, (lo + N.of_nat i * step, img + N.of_nat i * step))
    <$> seq 0 (S (N.to_nat ((hi - lo) / step))).

Definition run_step (r : case_run) : N := let '(_, _, step, _) := r in step.

Definition nonzero_steps (tbl : list case_run) : bool :=
  forallb (λ r, negb (run_step r =? 0)) tbl.

Definition is_surrogate (u : N) : bool := is_high u || is_low u.

(** A code unit on which [toUpperCase] does nothing, wherever it stands. *)
Definition fixed_unit (u : N) : bool :=
  negb (is_surrogate u) && bool_decide (upper_unit u = [u]).

(** A unit of an image: a letter or a mark, never white space or ASCII
    punctuation, and fixed. *)
Definition image_unit (u : N) : bool :=
  (0x41 <=? u) && negb (is_white_space u) && fixed_unit u.

(** Every code unit with an image of its own, with the image. *)
Definition unit_entries : list (N * jsstring) :=
  special_casing
  ++ ((λ p : N * N, (p.1, [p.2])) <$> flat_map run_points bmp_runs).

(** What such an entry satisfies: the unit is no surrogate, the image is
    not empty and made of image units. *)
Definition unit_entry_ok (e : N * jsstring) : bool :=
  negb (is_surrogate e.1) && negb (bool_decide (e.2 = []))
  && forallb image_unit e.2.

(** What an entry of a supplementary code point satisfies: the image is a
    supplementary code point with the same high surrogate, and is its own
    image. *)
Definition supplementary_entry_ok (e : N * N) : bool :=
  (0x10000 <=? e.2) && (e.2 <? 0x110000)
  && (0x10000 <=? e.1) && (e.1 <? 0x110000)
  && ((e.2 - 0x10000) / 0x400 =? (e.1 - 0x10000) / 0x400)
  && (upper_supplementary e.2 =? e.2).

(** The string starts with a low surrogate. *)
Definition starts_low (s : jsstring) : bool :=
  match s with
  | l :: _ => is_low l
  | [] => false
  end.

(** *** The source functions *)

(** What the loop of [computeCheckDigit] looks up at position [i]
    (0-based). *)
Definition position_value (v : jsstring) (i : nat) : option N :=
  MAP !! to_string (at_index v i).

(** The error the loop throws at position [i] (0-based). *)
Definition invalid_character (v : jsstring) (i : nat) : error :=
  Error (lit "Invalid character '" ++ to_string (at_index v i)
         ++ lit "' at position " ++ string_of_number (N.of_nat (i + 1))).

(** The sum of the values, each times its weight. *)
Definition dot (vals weights : list N) : N :=
  foldr N.add 0 (zip_with N.mul vals weights).

(** The check digit of a remainder. *)
Definition check_character (remainder : N) : jsstring :=
  if remainder =? 10 then lit "X" else string_of_number remainder.

Definition check_characters : list jsstring :=
  [lit "0"; lit "1"; lit "2"; lit "3"; lit "4"; lit "5"; lit "6"; lit "7";
   lit "8"; lit "9"; lit "X"].

(** The errors each step of [validateVIN] records, and the expected check
    digit it reports. *)
Definition length_errors (v : jsstring) : list VinErrorCode :=
  if (length v =? VIN_LENGTH)%nat then [] else [INVALID_LENGTH].

Definition charset_errors (v : jsstring) : list VinErrorCode :=
  if VIN_REGEX_test v then [] else [INVALID_CHARACTERS].

Definition check_digit_errors (v : jsstring) : list VinErrorCode :=
  if (length v =? VIN_LENGTH)%nat then
    match computeCheckDigit v with
    | Return e =>
        if VIN_REGEX_test v && negb (bool_decide (at_index v 8 = Some e))
        then [INVALID_CHECK_DIGIT] else []
    | Throw _ => []
    end
  else [].

Definition expected_check_digit (v : jsstring) : jsstring :=
  if (length v =? VIN_LENGTH)%nat then
    match computeCheckDigit v with
    | Return e => e
    | Throw _ => lit "N/A"
    end
  else lit "N/A".

(** The permitted alphabet: the digits and the upper-case letters without
    I, O and Q. *)
Definition permitted_alphabet : jsstring :=
  lit "0123456789ABCDEFGHJKLMNPRSTUVWXYZ".

(** Decide a closed proposition by evaluating its decision procedure. *)
Ltac by_evaluation := apply (bool_decide_unpack _); vm_compute; exact I.

(** What [validateVIN] records for a normalized string [v], case by case:
    the errors, in the order of the steps, and the expected check digit. *)
Inductive outcome (v : jsstring) : list VinErrorCode -> jsstring -> Prop :=
  | wrong_length :
      length v ≠ 17%nat -> VIN_REGEX_test v = false ->
      outcome v [INVALID_LENGTH; INVALID_CHARACTERS] (lit "N/A")
  | wrong_characters e :
      length v = 17%nat -> VIN_REGEX_test v = false ->
      computeCheckDigit v = Throw e ->
      outcome v [INVALID_CHARACTERS] (lit "N/A")
  | wrong_check_digit c :
      length v = 17%nat -> VIN_REGEX_test v = true ->
      computeCheckDigit v = Return c -> at_index v 8 ≠ Some c ->
      outcome v [INVALID_CHECK_DIGIT] c
  | well_formed c :
      length v = 17%nat -> VIN_REGEX_test v = true ->
      computeCheckDigit v = Return c -> at_index v 8 = Some c ->
      outcome v [] c.

(** Letter groups with S, T, U, V, W, X one value lower than in ISO 3779
    and P with F. *)
Definition claimed_letter_groups : list (jsstring * N) :=
  [ (lit "AJS", 1); (lit "BKT", 2); (lit "CLU", 3); (lit "DMV", 4);
    (lit "ENW", 5); (lit "FPX", 6) ].

(** The letter groups of ISO 3779. *)
Definition letter_groups : list (jsstring * N) :=
  [ (lit "AJ", 1); (lit "BKS", 2); (lit "CLT", 3); (lit "DMU", 4);
    (lit "ENV", 5); (lit "FW", 6); (lit "GPX", 7); (lit "HY", 8);
    (lit "RZ", 9) ].

(** [MAP] gives every letter of every group the value of the group. *)
Definition follows_groups (groups : list (jsstring * N)) : Prop :=
  ∀ letters val u, (letters, val) ∈ groups -> u ∈ letters ->
    MAP !! [u] = Some val.

(** [toUpperCase] on an ASCII code unit: [a]..[z] go to [A]..[Z]. *)
Definition ascii_upper (u : N) : N :=
  if (code "a" <=? u) && (u <=? code "z") then u - 32 else u.

Definition remainders : list N := N.of_nat <$> seq 0 11.

(** The check digits, as code units. *)
Definition check_digits : jsstring := lit "0123456789X".

(** The weight of position [i] (0-based), 0 beyond the last. *)
Definition weight (i : N) : N := default 0 (WEIGHTS !! N.to_nat i).

(** One substitution outside the 9th position: with the same remainder
    before and after, the two values are the same. *)
Definition substitution_detected (s a b i : N) : bool :=
  implb (negb (i =? 8)
         && ((s + a * weight i) mod 11 =? (s + b * weight i) mod 11))
        (a =? b).

(** Two neighbours swapped, none of them at the 9th position. *)
Definition transposition_detected (s a b i : N) : bool :=
  implb (negb (i =? 7) && negb (i =? 8)
         && ((s + a * weight i + b * weight (i + 1)) mod 11
             =? (s + b * weight i + a * weight (i + 1)) mod 11))
        (a =? b).

End Notions.

(** ** Facts about the host functions *)

Module JSFacts.
Import JS Notions.

(** A property of all code units below a bound, decided by running through
    them. *)
Lemma below_bound_check (f : N -> bool) (n : nat) :
  forallb f (N.of_nat <$> seq 0 n) = true ->
  forall u, u < N.of_nat n -> f u = true.
Proof.
  intros Hall u Hu.
  rewrite forallb_forall in Hall. apply Hall.
  apply list_elem_of_In, list_elem_of_fmap.
  exists (N.to_nat u). split; [lia|].
  apply list_elem_of_In, in_seq. lia.
Qed.

(** *** The case tables, entry by entry *)

Lemma in_run_points c lo hi step img :
  step ≠ 0 ->
  in_run c (lo, hi, step, img) = true ->
  (c, img + (c - lo)) ∈ run_points (lo, hi, step, img).
Proof.
  intros Hstep Hin. unfold in_run in Hin.
  apply andb_prop in Hin as [Hin Hmod]. apply andb_prop in Hin as [Hlo Hhi].
  apply N.leb_le in Hlo, Hhi. apply N.eqb_eq in Hmod.
  pose proof (N.div_mod (c - lo) step Hstep) as Hdm. rewrite Hmod in Hdm.
  set (q := (c - lo) / step) in *.
  assert (Hq : q <= (hi - lo) / step).
  { apply N.Div0.div_le_mono. lia. }
  unfold run_points. apply list_elem_of_fmap.
  exists (N.to_nat q). split.
  - rewrite N2Nat.id. f_equal; lia.
  - apply list_elem_of_In, in_seq. lia.
Qed.

Lemma simple_upper_points tbl c d :
  Forall (λ r, run_step r ≠ 0) tbl ->
  simple_upper tbl c = Some d ->
  (c, d) ∈ flat_map run_points tbl.
Proof.
  induction 1 as [|[[[lo hi] step] img] rest Hstep _ IH];
    cbn [simple_upper flat_map]; [done|].
  destruct (in_run c (lo, hi, step, img)) eqn:Hin.
  - intros [= <-]. apply elem_of_app. left. by apply in_run_points.
  - intros Hd. apply elem_of_app. right. by apply IH.
Qed.

Lemma special_upper_elem tbl c img :
  special_upper tbl c = Some img -> (c, img) ∈ tbl.
Proof.
  induction tbl as [|[k i] rest IH]; cbn [special_upper]; [done|].
  destruct (k =? c) eqn:Hk.
  - apply N.eqb_eq in Hk. intros [= <-]. subst. left.
  - intros H. right. by apply IH.
Qed.

Lemma nonzero_steps_Forall tbl :
  nonzero_steps tbl = true -> Forall (λ r, run_step r ≠ 0) tbl.
Proof.
  unfold nonzero_steps. rewrite forallb_forall, Forall_forall.
  intros H r Hr. apply list_elem_of_In, H in Hr.
  apply negb_true_iff, N.eqb_neq in Hr. done.
Qed.

Lemma unit_entries_ok : forallb unit_entry_ok unit_entries = true.
Proof. vm_compute. reflexivity. Qed.

Lemma bmp_steps : nonzero_steps bmp_runs = true.
Proof. vm_compute. reflexivity. Qed.

Lemma upper_unit_cases u :
  upper_unit u = [u] ∨ (u, upper_unit u) ∈ unit_entries.
Proof.
  unfold upper_unit, unit_entries.
  destruct (special_upper special_casing u) as [img|] eqn:Hs.
  - right. apply elem_of_app. left. by apply special_upper_elem.
  - destruct (simple_upper bmp_runs u) as [d|] eqn:Hd; [|by left].
    right. apply elem_of_app. right.
    apply (list_elem_of_fmap_2 (λ p : N * N, (p.1, [p.2])) _ (u, d)).
    apply simple_upper_points; [|done].
    apply nonzero_steps_Forall, bmp_steps.
Qed.

Lemma supplementary_entries_ok :
  forallb supplementary_entry_ok (flat_map run_points supplementary_runs) = true.
Proof. vm_compute. reflexivity. Qed.

Lemma supplementary_steps : nonzero_steps supplementary_runs = true.
Proof. vm_compute. reflexivity. Qed.

Lemma upper_supplementary_cases cp :
  upper_supplementary cp = cp
  ∨ (cp, upper_supplementary cp) ∈ flat_map run_points supplementary_runs.
Proof.
  unfold upper_supplementary.
  destruct (simple_upper supplementary_runs cp) as [d|] eqn:Hd; [|by left].
  right. apply simple_upper_points; [|done].
  apply nonzero_steps_Forall, supplementary_steps.
Qed.

(** *** Surrogate pairs *)

Lemma utf16_pair_code_point h l :
  is_high h = true -> is_low l = true -> utf16_pair (code_point h l) = [h; l].
Proof.
  unfold is_high, is_low, utf16_pair, code_point. intros Hh Hl.
  apply andb_prop in Hh as [Hh1 Hh2]. apply andb_prop in Hl as [Hl1 Hl2].
  apply N.leb_le in Hh1, Hh2, Hl1, Hl2.
  replace (0x10000 + (h - 0xD800) * 0x400 + (l - 0xDC00) - 0x10000)
    with ((l - 0xDC00) + (h - 0xD800) * 0x400) by lia.
  rewrite N.div_add, N.Div0.mod_add by lia.
  rewrite N.div_small, N.mod_small by lia.
  f_equal; [lia|]. f_equal. lia.
Qed.

(** The image of a surrogate pair is a pair with the same high surrogate,
    and is its own image. *)
Lemma upper_token_pair h l :
  is_high h = true -> is_low l = true ->
  ∃ l', upper_token (Pair h l) = [h; l'] ∧ is_low l' = true
        ∧ upper_token (Pair h l') = [h; l'].
Proof.
  intros Hh Hl. cbn [upper_token].
  destruct (upper_supplementary_cases (code_point h l)) as [Hid|Hent].
  - exists l. cbn [upper_token]. rewrite Hid, utf16_pair_code_point by done.
    done.
  - pose proof supplementary_entries_ok as Hok.
    rewrite forallb_forall in Hok.
    apply list_elem_of_In, Hok in Hent. clear Hok.
    unfold supplementary_entry_ok in Hent. cbn [fst snd] in Hent.
    set (d := upper_supplementary (code_point h l)) in *.
    repeat (apply andb_prop in Hent as [Hent ?]).
    repeat match goal with
           | H : (_ <=? _) = true |- _ => apply N.leb_le in H
           | H : (_ <? _) = true |- _ => apply N.ltb_lt in H
           | H : (_ =? _) = true |- _ => apply N.eqb_eq in H
           end.
    assert (Hq : (code_point h l - 0x10000) / 0x400 = h - 0xD800).
    { pose proof (utf16_pair_code_point h l Hh Hl) as Hp.
      unfold utf16_pair in Hp. injection Hp as Hp _.
      unfold is_high in Hh. apply andb_prop in Hh as [Hh1 _].
      apply N.leb_le in Hh1. lia. }
    pose proof (N.div_mod (d - 0x10000) 0x400 ltac:(lia)) as Hdm.
    pose proof (N.mod_upper_bound (d - 0x10000) 0x400 ltac:(lia)) as Hm.
    set (m := (d - 0x10000) mod 0x400) in *.
    assert (Hh' := Hh). unfold is_high in Hh'.
    apply andb_prop in Hh' as [Hh1 Hh2]. apply N.leb_le in Hh1, Hh2.
    assert (Hlow : is_low (0xDC00 + m) = true).
    { unfold is_low. apply andb_true_intro. split; apply N.leb_le; lia. }
    assert (Hcp : code_point h (0xDC00 + m) = d).
    { unfold code_point. lia. }
    exists (0xDC00 + m). split; [|split; [done|]].
    + unfold utf16_pair. fold m. f_equal. lia.
    + rewrite Hcp.
      match goal with H : upper_supplementary d = d |- _ => rewrite H end.
      rewrite <- Hcp at 1. by apply utf16_pair_code_point.
Qed.

(** The image of a code unit outside a pair is the unit itself, or a
    non-empty string of letters and marks. *)
Lemma upper_unit_image u :
  upper_unit u = [u]
  ∨ (is_surrogate u = false ∧ upper_unit u ≠ []
     ∧ Forall (λ d, image_unit d = true) (upper_unit u)).
Proof.
  destruct (upper_unit_cases u) as [?|Hent]; [by left|right].
  pose proof unit_entries_ok as Hok. rewrite forallb_forall in Hok.
  apply list_elem_of_In, Hok in Hent. unfold unit_entry_ok in Hent.
  cbn [fst snd] in Hent.
  apply andb_prop in Hent as [Hent Himg]. apply andb_prop in Hent as [Hs Hne].
  apply negb_true_iff in Hs. apply negb_true_iff, bool_decide_eq_false in Hne.
  split; [done|]. split; [done|].
  apply Forall_forall. intros d Hd. rewrite forallb_forall in Himg.
  by apply Himg, list_elem_of_In.
Qed.

Lemma image_unit_fixed u : image_unit u = true -> fixed_unit u = true.
Proof. unfold image_unit. intros H. by apply andb_prop in H as [_ ?]. Qed.

Lemma fixed_unit_spec u :
  fixed_unit u = true ->
  is_high u = false ∧ is_low u = false ∧ upper_unit u = [u].
Proof.
  unfold fixed_unit, is_surrogate. intros H.
  apply andb_prop in H as [Hs Hu].
  apply negb_true_iff, orb_false_elim in Hs as [? ?].
  by apply bool_decide_eq_true in Hu.
Qed.

(** *** [toUpperCase], unit by unit *)

Lemma toUpperCase_nil : toUpperCase [] = [].
Proof. reflexivity. Qed.

Lemma toUpperCase_pair h l r :
  is_high h = true -> is_low l = true ->
  toUpperCase (h :: l :: r) = upper_token (Pair h l) ++ toUpperCase r.
Proof.
  intros Hh Hl. unfold toUpperCase. cbn [decode]. rewrite Hh, Hl. reflexivity.
Qed.

Lemma toUpperCase_unit h r :
  is_high h && starts_low r = false ->
  toUpperCase (h :: r) = upper_unit h ++ toUpperCase r.
Proof.
  intros Hn. unfold toUpperCase. destruct r as [|l r]; [reflexivity|].
  cbn [decode]. cbn [starts_low] in Hn. rewrite Hn. reflexivity.
Qed.

Lemma toUpperCase_fixed_app (us s : jsstring) :
  Forall (λ u, fixed_unit u = true) us ->
  toUpperCase (us ++ s) = us ++ toUpperCase s.
Proof.
  induction 1 as [|u us Hu _ IH]; [reflexivity|].
  apply fixed_unit_spec in Hu as (Hh & _ & Hu).
  cbn [app]. rewrite toUpperCase_unit by (by rewrite Hh).
  rewrite Hu, IH. reflexivity.
Qed.

Lemma toUpperCase_fixed (s : jsstring) :
  Forall (λ u, fixed_unit u = true) s -> toUpperCase s = s.
Proof.
  intros H. rewrite <- (app_nil_r s) at 1.
  rewrite toUpperCase_fixed_app by done. by rewrite toUpperCase_nil, app_nil_r.
Qed.

(** How [toUpperCase] starts: with the image of the first token. *)
Lemma toUpperCase_cons h r :
  (is_high h = true ∧ ∃ l l' r', r = l :: r' ∧ is_low l = true
     ∧ is_low l' = true ∧ upper_token (Pair h l') = [h; l']
     ∧ toUpperCase (h :: r) = [h; l'] ++ toUpperCase r')
  ∨ (is_high h && starts_low r = false
     ∧ toUpperCase (h :: r) = upper_unit h ++ toUpperCase r).
Proof.
  destruct (is_high h && starts_low r) eqn:Hp.
  - left. apply andb_prop in Hp as [Hh Hl]. split; [done|].
    destruct r as [|l r']; [done|]. cbn [starts_low] in Hl.
    destruct (upper_token_pair h l Hh Hl) as (l' & Himg & Hl' & Hfix).
    exists l, l', r'. rewrite toUpperCase_pair, Himg by done. done.
  - right. split; [done|]. by apply toUpperCase_unit.
Qed.

Lemma starts_low_toUpperCase (s : jsstring) :
  starts_low s = false -> starts_low (toUpperCase s) = false.
Proof.
  destruct s as [|h r]; [done|]. cbn [starts_low]. intros Hh.
  destruct (toUpperCase_cons h r)
    as [(_ & l & l' & r' & _ & _ & _ & _ & ->)|(_ & ->)].
  - done.
  - destruct (upper_unit_image h) as [->|(_ & Hne & Himg)]; [done|].
    destruct (upper_unit h) as [|d ds]; [done|].
    apply Forall_cons in Himg as [Hd _].
    apply image_unit_fixed, fixed_unit_spec in Hd as (_ & Hd & _). done.
Qed.

(** [toUpperCase] is idempotent. *)
Lemma toUpperCase_idempotent (s : jsstring) :
  toUpperCase (toUpperCase s) = toUpperCase s.
Proof.
  remember (length s) as n eqn:Hn.
  revert s Hn. induction (lt_wf n) as [n _ IH]. intros s Hn.
  destruct s as [|h r]; [reflexivity|]. cbn [length] in Hn.
  destruct (toUpperCase_cons h r)
    as [(Hhi & l & l' & r' & -> & Hl & Hl' & Hfix & ->)|(Hnp & ->)].
  - cbn [app]. rewrite toUpperCase_pair, Hfix by done.
    cbn [length] in Hn. rewrite (IH (length r')) by (done || lia). done.
  - destruct (upper_unit_image h) as [Hid|(_ & _ & Himg)].
    + rewrite Hid. cbn [app]. rewrite toUpperCase_unit.
      * rewrite Hid, (IH (length r)) by (done || lia). done.
      * apply andb_false_iff. apply andb_false_iff in Hnp as [?|?]; [by left|].
        right. by apply starts_low_toUpperCase.
    + rewrite toUpperCase_fixed_app.
      * rewrite (IH (length r)) by (done || lia). done.
      * eapply Forall_impl; [exact Himg|]. apply image_unit_fixed.
Qed.

Lemma upper_unit_nonempty u : upper_unit u ≠ [].
Proof.
  destruct (upper_unit_image u) as [->|(_ & ? & _)]; done.
Qed.

Lemma upper_unit_high h : is_high h = true -> upper_unit h = [h].
Proof.
  intros Hh. destruct (upper_unit_image h) as [?|(Hs & _)]; [done|].
  unfold is_surrogate in Hs. by rewrite Hh in Hs.
Qed.

Lemma is_low_letter_or_mark u :
  is_low u = true -> is_white_space u = false ∧ 0x41 <= u.
Proof.
  unfold is_low, is_white_space. intros H.
  apply andb_prop in H as [H1 H2]. apply N.leb_le in H1, H2.
  split; [|lia].
  repeat (apply orb_false_intro);
    first [apply N.eqb_neq; lia | apply andb_false_iff; right; apply N.leb_gt; lia
          | apply andb_false_iff; left; apply N.leb_gt; lia].
Qed.

Lemma image_unit_letter_or_mark u :
  image_unit u = true -> is_white_space u = false ∧ 0x41 <= u.
Proof.
  unfold image_unit. intros H.
  apply andb_prop in H as [H _]. apply andb_prop in H as [H1 H2].
  apply N.leb_le in H1. by apply negb_true_iff in H2.
Qed.

(** [toUpperCase] brings in no white space and no ASCII punctuation: a
    class made of such units only, absent from [s], is absent from
    [toUpperCase s]. *)
Lemma toUpperCase_class_free (cls : N -> bool) :
  (∀ u, cls u = true -> is_white_space u = true ∨ u < 0x41) ->
  ∀ s : jsstring,
    Forall (λ u, cls u = false) s ->
    Forall (λ u, cls u = false) (toUpperCase s).
Proof.
  intros Hcls.
  assert (Hout : ∀ d, is_white_space d = false ∧ 0x41 <= d -> cls d = false).
  { intros d [Hw Hd]. destruct (cls d) eqn:Hc; [|done].
    apply Hcls in Hc as [Hc|Hc]; [congruence|lia]. }
  intros s. remember (length s) as n eqn:Hn.
  revert s Hn. induction (lt_wf n) as [n _ IH]. intros s Hn Hs.
  destruct s as [|h r]; [by rewrite toUpperCase_nil|]. cbn [length] in Hn.
  apply Forall_cons in Hs as [Hh Hr].
  destruct (toUpperCase_cons h r)
    as [(_ & l & l' & r' & -> & _ & Hl' & _ & ->)|(_ & ->)].
  - apply Forall_cons in Hr as [_ Hr']. cbn [length] in Hn.
    cbn [app]. repeat apply Forall_cons_2; [done| |].
    + by apply Hout, is_low_letter_or_mark.
    + apply (IH (length r')); (done || lia).
  - apply Forall_app. split; [|apply (IH (length r)); (done || lia)].
    destruct (upper_unit_image h) as [->|(_ & _ & Himg)].
    + by apply Forall_singleton.
    + eapply Forall_impl; [exact Himg|].
      intros d Hd. by apply Hout, image_unit_letter_or_mark.
Qed.

(** The first [n] code units of [toUpperCase s] depend on the first [n] code
    units of [s] only. *)
Lemma toUpperCase_take (n : nat) :
  ∀ a b : jsstring,
    take n a = take n b -> take n (toUpperCase a) = take n (toUpperCase b).
Proof.
  induction (lt_wf n) as [n _ IH]. intros a b Hab.
  destruct n as [|m]; [reflexivity|].
  destruct a as [|h ra], b as [|h' rb]; try done.
  cbn [take] in Hab. injection Hab as <- Hr.
  destruct (is_high h && starts_low ra) eqn:Pa;
    destruct (is_high h && starts_low rb) eqn:Pb.
  - apply andb_prop in Pa as [Hh Hla]. apply andb_prop in Pb as [_ Hlb].
    destruct ra as [|la ra']; [done|]. destruct rb as [|lb rb']; [done|].
    cbn [starts_low] in Hla, Hlb. rewrite !toUpperCase_pair by done.
    destruct m as [|m'].
    + destruct (upper_token_pair h la Hh Hla) as (la' & -> & _).
      destruct (upper_token_pair h lb Hh Hlb) as (lb' & -> & _). done.
    + cbn [take] in Hr. injection Hr as <- Hr.
      destruct (upper_token_pair h la Hh Hla) as (l' & -> & _).
      cbn [app take]. do 2 f_equal. apply (IH m'); [lia|done].
  - apply andb_prop in Pa as [Hh Hla].
    destruct ra as [|la ra']; [done|]. cbn [starts_low] in Hla.
    rewrite toUpperCase_pair, toUpperCase_unit by done.
    destruct (upper_token_pair h la Hh Hla) as (la' & -> & _).
    rewrite (upper_unit_high h Hh).
    destruct m as [|m']; [done|].
    destruct rb as [|lb rb']; [done|].
    cbn [take] in Hr. injection Hr as <- _.
    cbn [starts_low] in Pb. by rewrite Hh, Hla in Pb.
  - apply andb_prop in Pb as [Hh Hlb].
    destruct rb as [|lb rb']; [done|]. cbn [starts_low] in Hlb.
    rewrite toUpperCase_pair, toUpperCase_unit by done.
    destruct (upper_token_pair h lb Hh Hlb) as (lb' & -> & _).
    rewrite (upper_unit_high h Hh).
    destruct m as [|m']; [done|].
    destruct ra as [|la ra']; [done|].
    cbn [take] in Hr. injection Hr as -> _.
    cbn [starts_low] in Pa. by rewrite Hh, Hlb in Pa.
  - rewrite !toUpperCase_unit by done. rewrite !take_app. f_equal.
    pose proof (upper_unit_nonempty h) as Hne.
    destruct (upper_unit h) as [|d ds]; [done|]. cbn [length].
    set (k := (S m - S (length ds))%nat).
    apply (IH k); [lia|].
    replace k with (k `min` m)%nat by lia.
    by rewrite <- !take_take, Hr.
Qed.

(** *** [replace] and [trim] *)

Lemma remove_runs_free (cls : N -> bool) (s : jsstring) :
  Forall (λ u, cls u = false) (remove_runs cls s).
Proof.
  induction s as [|u r IH]; cbn [remove_runs]; [done|].
  destruct (cls u) eqn:Hu; [done|]. by apply Forall_cons_2.
Qed.

Lemma remove_runs_id (cls : N -> bool) (s : jsstring) :
  Forall (λ u, cls u = false) s -> remove_runs cls s = s.
Proof.
  induction 1 as [|u r Hu _ IH]; cbn [remove_runs]; [done|].
  by rewrite Hu, IH.
Qed.

Lemma trim_start_id (s : jsstring) :
  Forall (λ u, is_white_space u = false) s -> trim_start s = s.
Proof.
  destruct 1 as [|u r Hu _]; cbn [trim_start]; [done|]. by rewrite Hu.
Qed.

Lemma trim_id (s : jsstring) :
  Forall (λ u, is_white_space u = false) s -> trim s = s.
Proof.
  intros Hs. unfold trim, trim_end. rewrite (trim_start_id s Hs).
  rewrite trim_start_id by (by apply Forall_rev). apply rev_involutive.
Qed.

End JSFacts.

(** ** Facts about the source functions *)

Module VinFacts.
Import JS Vin Notions JSFacts.

(** [WEIGHTS[i]] is defined at every iteration of the loop. *)
Lemma WEIGHTS_in_range (i : nat) :
  (i < VIN_LENGTH)%nat -> is_Some (WEIGHTS !! i).
Proof. intros Hi. apply lookup_lt_is_Some_2. exact Hi. Qed.

Lemma separator_class u :
  separator u = true -> is_white_space u = true ∨ u < 0x41.
Proof.
  unfold separator. intros H. apply orb_prop in H as [H|H]; [by left|right].
  apply N.eqb_eq in H. subst u. vm_compute. reflexivity.
Qed.

Lemma separator_white_space u :
  separator u = false -> is_white_space u = false.
Proof. unfold separator. intros H. by apply orb_false_elim in H as [? _]. Qed.

Lemma normalizeVIN_unfold (input : jsstring) :
  normalizeVIN input = toUpperCase (remove_runs separator input).
Proof.
  unfold normalizeVIN. rewrite trim_id; [done|].
  eapply Forall_impl; [apply remove_runs_free|]. apply separator_white_space.
Qed.

Lemma normalizeVIN_separator_free (input : jsstring) :
  Forall (λ u, separator u = false) (normalizeVIN input).
Proof.
  rewrite normalizeVIN_unfold.
  apply toUpperCase_class_free; [apply separator_class|apply remove_runs_free].
Qed.

Lemma toUpperCase_normalizeVIN (input : jsstring) :
  toUpperCase (normalizeVIN input) = normalizeVIN input.
Proof. rewrite normalizeVIN_unfold. apply toUpperCase_idempotent. Qed.

(** *** The transliteration table *)

Lemma MAP_lookup_elem (k : jsstring) (val : N) :
  MAP !! k = Some val -> (k, val) ∈ MAP_properties.
Proof. apply elem_of_list_to_map_2. Qed.

Lemma class_below_128 u : VIN_REGEX_class u = true -> u < 128.
Proof.
  unfold VIN_REGEX_class, code. cbn [N_of_ascii N_of_digits]. intros H.
  repeat (apply orb_prop in H as [H|H]);
    repeat (apply andb_prop in H as [? H]);
    repeat match goal with
           | H : (_ <=? _) = true |- _ => apply N.leb_le in H
           | H : (_ =? _) = true |- _ => apply N.eqb_eq in H
           end; lia.
Qed.

Lemma MAP_class_check :
  forallb (λ u, implb (VIN_REGEX_class u) (bool_decide (is_Some (MAP !! [u]))))
    (N.of_nat <$> seq 0 128) = true.
Proof. vm_compute. reflexivity. Qed.

(** The units of the class of the pattern are the one-unit keys of [MAP]. *)
Lemma MAP_class u : VIN_REGEX_class u = true ↔ is_Some (MAP !! [u]).
Proof.
  split.
  - intros Hc. pose proof (class_below_128 u Hc) as Hu. revert Hc.
    pose proof (below_bound_check _ 128 MAP_class_check u Hu) as Hchk.
    cbv beta in Hchk. intros Hc. rewrite Hc in Hchk.
    by apply bool_decide_eq_true in Hchk.
  - intros [val Hval]. apply MAP_lookup_elem in Hval.
    vm_compute in Hval.
    repeat (apply elem_of_cons in Hval as [Hval|Hval];
            [injection Hval as -> ->; vm_compute; reflexivity|]).
    by apply elem_of_nil in Hval.
Qed.

Lemma MAP_undefined : MAP !! lit "undefined" = None.
Proof. vm_compute. reflexivity. Qed.

Lemma MAP_value_le_9 (k : jsstring) (val : N) : MAP !! k = Some val -> val <= 9.
Proof.
  intros Hval. apply MAP_lookup_elem in Hval.
  vm_compute in Hval.
  repeat (apply elem_of_cons in Hval as [Hval|Hval];
          [injection Hval as -> ->; lia|]).
  by apply elem_of_nil in Hval.
Qed.

Lemma class_fixed_check :
  forallb (λ u, implb (VIN_REGEX_class u) (fixed_unit u))
    (N.of_nat <$> seq 0 128) = true.
Proof. vm_compute. reflexivity. Qed.

(** The units of the pattern's class are fixed by [toUpperCase]. *)
Lemma class_fixed u : VIN_REGEX_class u = true -> fixed_unit u = true.
Proof.
  intros Hc. pose proof (class_below_128 u Hc) as Hu.
  pose proof (below_bound_check _ 128 class_fixed_check u Hu) as Hchk.
  cbv beta in Hchk. by rewrite Hc in Hchk.
Qed.

Lemma toUpperCase_class (s : jsstring) :
  Forall (λ u, VIN_REGEX_class u = true) s -> toUpperCase s = s.
Proof.
  intros H. apply toUpperCase_fixed. eapply Forall_impl; [exact H|].
  apply class_fixed.
Qed.

(** *** The loop of [computeCheckDigit] *)

Lemma weighted_sum_from_S v todo i sum :
  weighted_sum_from v (S todo) i sum =
  match position_value v i with
  | None => Throw (invalid_character v i)
  | Some val =>
      weighted_sum_from v todo (S i) (sum + val * default 0 (WEIGHTS !! i))
  end.
Proof. reflexivity. Qed.

Lemma at_index_ext (v1 v2 : jsstring) i :
  v1 !! i = v2 !! i -> at_index v1 i = at_index v2 i.
Proof. unfold at_index. by intros ->. Qed.

Lemma position_value_Some (v : jsstring) i u :
  v !! i = Some u -> position_value v i = MAP !! [u].
Proof. unfold position_value, at_index. by intros ->. Qed.

Lemma position_value_None (v : jsstring) i :
  v !! i = None -> position_value v i = None.
Proof.
  unfold position_value, at_index. intros ->. apply MAP_undefined.
Qed.

(** The loop reads the positions [i .. i + todo - 1] only. *)
Lemma weighted_sum_from_ext (v1 v2 : jsstring) todo :
  ∀ i sum,
    (∀ j, (i <= j < i + todo)%nat -> v1 !! j = v2 !! j) ->
    weighted_sum_from v1 todo i sum = weighted_sum_from v2 todo i sum.
Proof.
  induction todo as [|todo IH]; intros i sum Hagree; [reflexivity|].
  rewrite !weighted_sum_from_S. unfold position_value, invalid_character.
  rewrite (at_index_ext v1 v2 i) by (apply Hagree; lia).
  destruct (MAP !! to_string (at_index v2 i)); [|reflexivity].
  apply IH. intros j Hj. apply Hagree. lia.
Qed.

(** The loop throws at the first position without a value. *)
Lemma weighted_sum_from_throw (v : jsstring) k todo :
  ∀ i sum,
    (i <= k < i + todo)%nat ->
    (∀ j, (i <= j < k)%nat -> is_Some (position_value v j)) ->
    position_value v k = None ->
    weighted_sum_from v todo i sum = Throw (invalid_character v k).
Proof.
  induction todo as [|todo IH]; intros i sum Hk Hbefore Hnone; [lia|].
  rewrite weighted_sum_from_S.
  destruct (decide (i = k)) as [->|Hne].
  - by rewrite Hnone.
  - destruct (Hbefore i ltac:(lia)) as [val ->].
    apply IH; [lia| |done]. intros j Hj. apply Hbefore. lia.
Qed.

(** With a value at every position, the loop adds the weighted values. *)
Lemma weighted_sum_from_return (v : jsstring) (vals : list N) todo :
  Forall2 (λ u val, MAP !! [u] = Some val) v vals ->
  ∀ i sum,
    (i + todo <= length v)%nat ->
    weighted_sum_from v todo i sum =
    Return (sum + dot (take todo (drop i vals)) (take todo (drop i WEIGHTS))).
Proof.
  intros Hvals. induction todo as [|todo IH]; intros i sum Hlen.
  - cbn [weighted_sum_from take]. unfold dot. cbn. by rewrite N.add_0_r.
  - rewrite weighted_sum_from_S.
    destruct (lookup_lt_is_Some_2 v i ltac:(lia)) as [u Hu].
    destruct (Forall2_lookup_l _ _ _ _ _ Hvals Hu) as (val & Hval & Hmap).
    rewrite (position_value_Some _ _ _ Hu), Hmap.
    rewrite IH by lia. f_equal.
    rewrite (drop_S _ _ _ Hval). cbn [take].
    destruct (WEIGHTS !! i) as [w|] eqn:Hw.
    + rewrite (drop_S _ _ _ Hw). cbn [take default]. unfold dot.
      cbn [zip_with foldr]. unfold id. lia.
    + rewrite (drop_ge WEIGHTS i), (drop_ge WEIGHTS (S i))
        by (apply lookup_ge_None in Hw; lia).
      rewrite !take_nil. unfold dot. cbn [default].
      rewrite !zip_with_nil_r. cbn [foldr]. lia.
Qed.

(** The loop returns exactly when every position has a value. *)
Lemma weighted_sum_from_returns (v : jsstring) todo :
  ∀ i sum,
    (∃ total, weighted_sum_from v todo i sum = Return total)
    ↔ (∀ j, (i <= j < i + todo)%nat -> is_Some (position_value v j)).
Proof.
  induction todo as [|todo IH]; intros i sum.
  - split; [intros _ j Hj; lia|intros _; by eexists].
  - rewrite weighted_sum_from_S. split.
    + intros [total Htotal] j Hj.
      destruct (position_value v i) as [val|] eqn:Hi; [|done].
      destruct (decide (j = i)) as [->|Hne]; [by rewrite Hi|].
      eapply IH; [by eexists|lia].
    + intros Hall. destruct (Hall i ltac:(lia)) as [val ->].
      apply IH. intros j Hj. apply Hall. lia.
Qed.

(** *** [computeCheckDigit] *)

Lemma computeCheckDigit_unfold (vin : jsstring) :
  computeCheckDigit vin =
  match weighted_sum_from (toUpperCase vin) VIN_LENGTH 0 0 with
  | Throw e => Throw e
  | Return sum => Return (check_character (sum mod 11))
  end.
Proof. reflexivity. Qed.

Lemma class_values (v : jsstring) :
  Forall (λ u, VIN_REGEX_class u = true) v ->
  ∃ vals : list N, Forall2 (λ u val, MAP !! [u] = Some val) v vals.
Proof.
  induction 1 as [|u r Hu _ [vals IH]]; [by exists []|].
  apply MAP_class in Hu as [val Hval]. exists (val :: vals).
  by apply Forall2_cons.
Qed.

Lemma computeCheckDigit_values (v : jsstring) (vals : list N) :
  length v = VIN_LENGTH ->
  Forall2 (λ u val, MAP !! [u] = Some val) v vals ->
  computeCheckDigit v = Return (check_character (dot vals WEIGHTS mod 11)).
Proof.
  intros Hlen Hvals. rewrite computeCheckDigit_unfold.
  assert (Hcls : Forall (λ u, VIN_REGEX_class u = true) v).
  { apply Forall_forall. intros u Hu.
    apply list_elem_of_lookup in Hu as [i Hi].
    destruct (Forall2_lookup_l _ _ _ _ _ Hvals Hi) as (val & _ & Hmap).
    apply MAP_class. by exists val. }
  rewrite (toUpperCase_class v Hcls).
  rewrite (weighted_sum_from_return v vals) by (done || lia).
  rewrite drop_0, N.add_0_l.
  rewrite (take_ge vals) by (apply Forall2_length in Hvals; lia).
  rewrite (take_ge WEIGHTS) by (cbn; unfold VIN_LENGTH; lia).
  reflexivity.
Qed.

Lemma check_character_check :
  forallb (λ r, bool_decide (check_character r ∈ check_characters))
    (N.of_nat <$> seq 0 11) = true.
Proof. vm_compute. reflexivity. Qed.

Lemma check_character_elem (sum : N) :
  check_character (sum mod 11) ∈ check_characters.
Proof.
  pose proof (N.mod_upper_bound sum 11 ltac:(lia)) as Hr.
  pose proof (below_bound_check _ 11 check_character_check _ Hr) as Hchk.
  by apply bool_decide_eq_true in Hchk.
Qed.

Lemma computeCheckDigit_take (a b : jsstring) :
  take VIN_LENGTH a = take VIN_LENGTH b ->
  computeCheckDigit a = computeCheckDigit b.
Proof.
  intros Hab. rewrite !computeCheckDigit_unfold.
  apply toUpperCase_take in Hab.
  rewrite (weighted_sum_from_ext (toUpperCase a) (toUpperCase b)); [done|].
  intros j Hj.
  rewrite <- (lookup_take_lt (toUpperCase a) VIN_LENGTH j) by lia.
  rewrite <- (lookup_take_lt (toUpperCase b) VIN_LENGTH j) by lia.
  by rewrite Hab.
Qed.

Lemma computeCheckDigit_throw (vin : jsstring) (k : nat) :
  (k < VIN_LENGTH)%nat ->
  (∀ j, (j < k)%nat -> is_Some (position_value (toUpperCase vin) j)) ->
  position_value (toUpperCase vin) k = None ->
  computeCheckDigit vin = Throw (invalid_character (toUpperCase vin) k).
Proof.
  intros Hk Hbefore Hnone. rewrite computeCheckDigit_unfold.
  rewrite (weighted_sum_from_throw _ k); [done|lia| |done].
  intros j Hj. apply Hbefore. lia.
Qed.

Lemma computeCheckDigit_returns (vin : jsstring) :
  (∃ c, computeCheckDigit vin = Return c)
  ↔ (∀ j, (j < VIN_LENGTH)%nat ->
          is_Some (position_value (toUpperCase vin) j)).
Proof.
  rewrite computeCheckDigit_unfold.
  pose proof (weighted_sum_from_returns (toUpperCase vin) VIN_LENGTH 0 0) as H.
  split.
  - intros [c Hc] j Hj. apply H; [|lia].
    destruct (weighted_sum_from _ _ _ _); [by eexists|done].
  - intros Hall. destruct H as [_ [total ->]]; [|by eexists].
    intros j Hj. apply Hall. lia.
Qed.

(** *** [validateVIN] *)

Lemma VIN_REGEX_test_spec (s : jsstring) :
  VIN_REGEX_test s = true
  ↔ length s = 17%nat ∧ Forall (λ u, VIN_REGEX_class u = true) s.
Proof.
  unfold VIN_REGEX_test. rewrite andb_true_iff, Nat.eqb_eq.
  by rewrite forallb_forall, Forall_forall; setoid_rewrite list_elem_of_In.
Qed.

Lemma validateVIN_unfold (input : jsstring) :
  validateVIN input =
  let v := normalizeVIN input in
  let errs := length_errors v ++ charset_errors v ++ check_digit_errors v in
  Return {| isValid := (length errs =? 0)%nat;
            vin := v;
            errors := errs;
            checkDigit := default [] (at_index v 8);
            expectedCheckDigit := expected_check_digit v |}.
Proof.
  unfold validateVIN, length_errors, charset_errors, check_digit_errors,
    expected_check_digit.
  cbv zeta. generalize (normalizeVIN input). intros v.
  cbv [run mbind proc_bind mret proc_ret try_catch lift when push
       set_expected get_frame].
  destruct (length v =? VIN_LENGTH)%nat; destruct (VIN_REGEX_test v);
    destruct (computeCheckDigit v) as [e|err]; try reflexivity;
    cbn [negb andb f_errors f_expected snd app];
    destruct (bool_decide (at_index v 8 = Some e)); reflexivity.
Qed.

Lemma class_permitted_check :
  forallb (λ u, bool_decide (VIN_REGEX_class u = true ↔ u ∈ permitted_alphabet))
    (N.of_nat <$> seq 0 128) = true.
Proof. vm_compute. reflexivity. Qed.

Lemma permitted_below_128 u : u ∈ permitted_alphabet -> u < 128.
Proof.
  intros H. vm_compute in H.
  repeat (apply elem_of_cons in H as [->|H]; [lia|]).
  by apply elem_of_nil in H.
Qed.

(** The class of the pattern is the permitted alphabet. *)
Lemma class_permitted u :
  VIN_REGEX_class u = true ↔ u ∈ permitted_alphabet.
Proof.
  assert (Hb : u < 128 -> VIN_REGEX_class u = true ↔ u ∈ permitted_alphabet).
  { intros Hu.
    pose proof (below_bound_check _ 128 class_permitted_check u Hu) as Hchk.
    by apply bool_decide_eq_true in Hchk. }
  split; intros H.
  - apply Hb; [by apply class_below_128|done].
  - apply Hb; [by apply permitted_below_128|done].
Qed.

Lemma Forall_class_permitted (s : jsstring) :
  Forall (λ u, VIN_REGEX_class u = true) s
  ↔ Forall (λ u, u ∈ permitted_alphabet) s.
Proof. apply Forall_proper; [|done]. intros u. apply class_permitted. Qed.

Lemma VIN_REGEX_test_permitted (s : jsstring) :
  VIN_REGEX_test s = true
  ↔ length s = 17%nat ∧ Forall (λ u, u ∈ permitted_alphabet) s.
Proof. by rewrite VIN_REGEX_test_spec, Forall_class_permitted. Qed.

Lemma computeCheckDigit_test (v : jsstring) :
  VIN_REGEX_test v = true ->
  ∃ vals : list N,
    Forall2 (λ u val, MAP !! [u] = Some val) v vals
    ∧ computeCheckDigit v = Return (check_character (dot vals WEIGHTS mod 11)).
Proof.
  intros [Hlen Hcls]%VIN_REGEX_test_spec.
  destruct (class_values v Hcls) as [vals Hvals].
  exists vals. split; [done|]. by apply computeCheckDigit_values.
Qed.

Lemma errors_nil (v : jsstring) :
  length_errors v ++ charset_errors v ++ check_digit_errors v = []
  ↔ VIN_REGEX_test v = true
    ∧ ∃ c, computeCheckDigit v = Return c ∧ at_index v 8 = Some c.
Proof.
  unfold length_errors, charset_errors, check_digit_errors.
  destruct (VIN_REGEX_test v) eqn:Ht.
  - pose proof Ht as [Hlen _]%VIN_REGEX_test_spec.
    destruct (computeCheckDigit_test v Ht) as (vals & _ & ->).
    rewrite <- Nat.eqb_eq in Hlen. unfold VIN_LENGTH. rewrite Hlen.
    cbn [app andb]. case_bool_decide as Hd; cbn [negb].
    + split; [|done]. intros _. split; [done|]. by eexists.
    + split; [done|]. intros [_ (c & [= <-] & Hc)]. done.
  - split.
    + intros H. apply app_eq_nil in H as [_ H].
      by apply app_eq_nil in H as [H _].
    + by intros [? _].
Qed.

(** On a string of 17 units that [toUpperCase] leaves alone, the calculator
    throws when the pattern does not match. *)
Lemma computeCheckDigit_mismatch (v : jsstring) :
  toUpperCase v = v -> length v = 17%nat -> VIN_REGEX_test v = false ->
  ∃ e, computeCheckDigit v = Throw e.
Proof.
  intros Hup Hlen Ht.
  destruct (computeCheckDigit v) as [c|e] eqn:Hc; [|by eexists].
  pose proof (proj1 (computeCheckDigit_returns v) (ex_intro _ c Hc)) as Hret.
  rewrite Hup in Hret.
  assert (VIN_REGEX_test v = true); [|congruence].
  apply VIN_REGEX_test_spec. split; [done|].
  apply Forall_forall. intros u Hu.
  apply list_elem_of_lookup in Hu as [j Hj].
  pose proof (lookup_lt_Some _ _ _ Hj) as Hlt.
  specialize (Hret j ltac:(unfold VIN_LENGTH; lia)).
  rewrite (position_value_Some _ _ _ Hj) in Hret. by apply MAP_class.
Qed.

Lemma validateVIN_outcome (x : jsstring) :
  ∃ errs expected,
    outcome (normalizeVIN x) errs expected
    ∧ validateVIN x =
        Return {| isValid := (length errs =? 0)%nat;
                  vin := normalizeVIN x;
                  errors := errs;
                  checkDigit := default [] (at_index (normalizeVIN x) 8);
                  expectedCheckDigit := expected |}.
Proof.
  rewrite validateVIN_unfold. cbv zeta.
  pose proof (toUpperCase_normalizeVIN x) as Hup.
  revert Hup. generalize (normalizeVIN x). intros v Hup.
  unfold length_errors, charset_errors, check_digit_errors,
    expected_check_digit, VIN_LENGTH.
  destruct (length v =? 17)%nat eqn:Hlen.
  - apply Nat.eqb_eq in Hlen. destruct (VIN_REGEX_test v) eqn:Ht.
    + destruct (computeCheckDigit_test v Ht) as (vals & _ & Hc).
      rewrite Hc. cbn [andb app]. case_bool_decide as Hd; cbn [negb].
      * do 2 eexists. split; [by eapply well_formed|reflexivity].
      * do 2 eexists. split; [by eapply wrong_check_digit|reflexivity].
    + destruct (computeCheckDigit_mismatch v Hup Hlen Ht) as [e He].
      rewrite He. do 2 eexists.
      split; [by eapply wrong_characters|reflexivity].
  - apply Nat.eqb_neq in Hlen. destruct (VIN_REGEX_test v) eqn:Ht.
    + by apply VIN_REGEX_test_spec in Ht as [? _].
    + do 2 eexists. split; [by eapply wrong_length|reflexivity].
Qed.

Lemma outcome_errors (v : jsstring) errs expected :
  outcome v errs expected ->
  (INVALID_LENGTH ∈ errs ↔ length v ≠ 17%nat)
  ∧ (INVALID_CHARACTERS ∈ errs ↔ VIN_REGEX_test v = false)
  ∧ (INVALID_CHECK_DIGIT ∈ errs
     ↔ length v = 17%nat ∧ VIN_REGEX_test v = true
       ∧ ∃ c, computeCheckDigit v = Return c ∧ at_index v 8 ≠ Some c).
Proof.
  destruct 1 as [Hlen Ht|e Hlen Ht Hc|c Hlen Ht Hc Hd|c Hlen Ht Hc Hd];
    rewrite ?elem_of_cons, ?elem_of_nil, Ht; repeat split;
    try (intros; intuition congruence).
  - by exists c.
  - intros (_ & _ & c' & Hc' & Hd'). congruence.
Qed.

Lemma VIN_REGEX_test_false (s : jsstring) :
  VIN_REGEX_test s = false
  ↔ ¬ (length s = 17%nat ∧ Forall (λ u, u ∈ permitted_alphabet) s).
Proof.
  rewrite <- VIN_REGEX_test_permitted. by destruct (VIN_REGEX_test s).
Qed.

(** *** Helper facts for the claims *)

(** Every element of a joined list is a factor of the result. *)
Lemma join_factor (sep x : jsstring) (xs : list jsstring) :
  x ∈ xs -> ∃ before after, join sep xs = before ++ x ++ after.
Proof.
  induction xs as [|y ys IH]; intros Hx; [by apply elem_of_nil in Hx|].
  apply elem_of_cons in Hx as [->|Hx].
  - destruct ys as [|z zs].
    + exists [], []. cbn [join app]. by rewrite app_nil_r.
    + exists [], (sep ++ join sep (z :: zs)). reflexivity.
  - destruct (IH Hx) as (before & after & Hj).
    destruct ys as [|z zs]; [by apply elem_of_nil in Hx|].
    exists (y ++ sep ++ before), after.
    change (join sep (y :: z :: zs)) with (y ++ sep ++ join sep (z :: zs)).
    rewrite Hj. by rewrite <- !app_assoc.
Qed.

(** The first position without a value, when there is one. *)
Lemma first_missing (v : jsstring) (k : nat) :
  (∀ j, (j < k)%nat -> is_Some (position_value v j))
  ∨ (∃ k0, (k0 < k)%nat ∧ position_value v k0 = None
           ∧ ∀ j, (j < k0)%nat -> is_Some (position_value v j)).
Proof.
  induction k as [|k [IH|(k0 & Hk0 & Hnone & Hbefore)]].
  - left. intros j Hj. lia.
  - destruct (position_value v k) as [val|] eqn:Hk.
    + left. intros j Hj. destruct (decide (j = k)) as [->|Hne].
      * by rewrite Hk.
      * apply IH. lia.
    + right. exists k. split; [lia|]. split; [done|]. exact IH.
  - right. exists k0. split; [lia|]. split; [done|]. exact Hbefore.
Qed.

Lemma ascii_upper_check :
  forallb (λ u, negb (is_high u) && bool_decide (length (upper_unit u) = 1%nat))
    (N.of_nat <$> seq 0 128) = true.
Proof. vm_compute. reflexivity. Qed.

(** [toUpperCase] keeps the length of an ASCII string. *)
Lemma toUpperCase_ascii_length (s : jsstring) :
  Forall (λ u, u < 128) s -> length (toUpperCase s) = length s.
Proof.
  induction 1 as [|u r Hu _ IH]; [reflexivity|].
  pose proof (below_bound_check _ 128 ascii_upper_check u Hu) as Hchk.
  cbv beta in Hchk. apply andb_prop in Hchk as [Hh Hl].
  apply negb_true_iff in Hh. apply bool_decide_eq_true in Hl.
  rewrite toUpperCase_unit by (by rewrite Hh).
  rewrite length_app, Hl, IH. reflexivity.
Qed.

Lemma computeCheckDigit_first_missing (vin : jsstring) (k : nat) :
  (k < VIN_LENGTH)%nat ->
  position_value (toUpperCase vin) k = None ->
  ∃ k0, (k0 <= k)%nat
    ∧ position_value (toUpperCase vin) k0 = None
    ∧ (∀ j, (j < k0)%nat -> is_Some (position_value (toUpperCase vin) j))
    ∧ computeCheckDigit vin = Throw (invalid_character (toUpperCase vin) k0).
Proof.
  intros Hk Hnone.
  destruct (first_missing (toUpperCase vin) k)
    as [Hall|(k0 & Hk0 & Hnone0 & Hbefore)].
  - exists k. split; [lia|]. split; [done|]. split; [done|].
    by apply computeCheckDigit_throw.
  - exists k0. split; [lia|]. split; [done|]. split; [done|].
    apply computeCheckDigit_throw; [lia|done|done].
Qed.

Lemma remove_runs_app (cls : N -> bool) (a b : jsstring) :
  remove_runs cls (a ++ b) = remove_runs cls a ++ remove_runs cls b.
Proof.
  induction a as [|u a IH]; [reflexivity|].
  cbn [app remove_runs]. rewrite IH. by destruct (cls u).
Qed.

Lemma remove_runs_nil (cls : N -> bool) (s : jsstring) :
  remove_runs cls s = [] ↔ Forall (λ u, cls u = true) s.
Proof.
  induction s as [|u r IH]; cbn [remove_runs]; [done|].
  destruct (cls u) eqn:Hu.
  - rewrite IH. split; [by apply Forall_cons_2|by intros [_ ?]%Forall_cons].
  - split; [done|]. intros [? _]%Forall_cons. congruence.
Qed.

Lemma toUpperCase_eq_nil (s : jsstring) : toUpperCase s = [] ↔ s = [].
Proof.
  split; [|by intros ->].
  destruct s as [|h r]; [done|]. intros H. exfalso.
  destruct (toUpperCase_cons h r)
    as [(_ & l & l' & r' & _ & _ & _ & _ & E)|(_ & E)];
    rewrite E in H; [done|].
  apply app_eq_nil in H as [H _]. by apply upper_unit_nonempty in H.
Qed.

Lemma ascii_upper_unit_check :
  forallb (λ u, negb (is_high u) && bool_decide (upper_unit u = [ascii_upper u])
                && (ascii_upper u <? 128))
    (N.of_nat <$> seq 0 128) = true.
Proof. vm_compute. reflexivity. Qed.

Lemma toUpperCase_ascii (s : jsstring) :
  Forall (λ u, u < 128) s -> toUpperCase s = ascii_upper <$> s.
Proof.
  induction 1 as [|u r Hu _ IH]; [reflexivity|].
  pose proof (below_bound_check _ 128 ascii_upper_unit_check u Hu) as Hchk.
  cbv beta in Hchk. apply andb_prop in Hchk as [Hchk _].
  apply andb_prop in Hchk as [Hh Hup].
  apply negb_true_iff in Hh. apply bool_decide_eq_true in Hup.
  rewrite toUpperCase_unit by (by rewrite Hh). by rewrite Hup, IH.
Qed.

Lemma ascii_upper_below_128 u : u < 128 -> ascii_upper u < 128.
Proof.
  intros Hu.
  pose proof (below_bound_check _ 128 ascii_upper_unit_check u Hu) as Hchk.
  cbv beta in Hchk. apply andb_prop in Hchk as [_ H]. by apply N.ltb_lt in H.
Qed.

Lemma remove_runs_Forall (P : N -> Prop) (cls : N -> bool) (s : jsstring) :
  Forall P s -> Forall P (remove_runs cls s).
Proof.
  induction 1 as [|u r Hu _ IH]; cbn [remove_runs]; [done|].
  destruct (cls u); [done|]. by apply Forall_cons_2.
Qed.

Lemma remove_runs_length (cls : N -> bool) (s : jsstring) :
  (length (remove_runs cls s) <= length s)%nat.
Proof.
  induction s as [|u r IH]; cbn [remove_runs]; [done|].
  destruct (cls u); cbn [length]; lia.
Qed.

Lemma normalizeVIN_normalized (s : jsstring) :
  normalizeVIN (normalizeVIN s) = normalizeVIN s.
Proof.
  rewrite (normalizeVIN_unfold (normalizeVIN s)).
  rewrite remove_runs_id by apply normalizeVIN_separator_free.
  apply toUpperCase_normalizeVIN.
Qed.

Lemma validateVIN_same_normal (x y : jsstring) :
  normalizeVIN x = normalizeVIN y -> validateVIN x = validateVIN y.
Proof. intros H. unfold validateVIN. by rewrite H. Qed.

Lemma position_value_is_Some (v : jsstring) (j : nat) :
  is_Some (position_value v j)
  ↔ ∃ u, v !! j = Some u ∧ u ∈ permitted_alphabet.
Proof.
  destruct (v !! j) as [u|] eqn:Hj.
  - rewrite (position_value_Some _ _ _ Hj), <- MAP_class, class_permitted.
    split; [by exists u|]. by intros (u' & [= <-] & ?).
  - rewrite (position_value_None _ _ Hj). split; [by intros [? ?]|].
    by intros (u & ? & _).
Qed.

(** Changing one value changes the weighted sum by the difference times the
    weight of the position. *)
Lemma dot_insert (vals weights : list N) (i : nat) (old new w : N) :
  vals !! i = Some old -> weights !! i = Some w ->
  dot (<[i:=new]> vals) weights + old * w = dot vals weights + new * w.
Proof.
  revert weights i. induction vals as [|a vals IH]; intros weights i Hv Hw.
  - done.
  - destruct weights as [|b weights]; [done|]. destruct i as [|i].
    + injection Hv as ->. injection Hw as ->.
      change (<[0%nat:=new]> (old :: vals)) with (new :: vals).
      unfold dot. cbn [zip_with foldr]. ring.
    + change (<[S i:=new]> (a :: vals)) with (a :: <[i:=new]> vals).
      change (vals !! i = Some old) in Hv.
      change (weights !! i = Some w) in Hw.
      specialize (IH weights i Hv Hw). unfold dot in *.
      cbn [zip_with foldr]. rewrite <- !N.add_assoc. by rewrite IH.
Qed.

Lemma check_character_inj_check :
  forallb (λ r1, forallb (λ r2,
     implb (bool_decide (check_character r1 = check_character r2)) (r1 =? r2))
     remainders) remainders = true.
Proof. vm_compute. reflexivity. Qed.

Lemma check_character_inj (r1 r2 : N) :
  r1 < 11 -> r2 < 11 -> check_character r1 = check_character r2 -> r1 = r2.
Proof.
  intros H1 H2 Heq.
  pose proof (below_bound_check _ 11 check_character_inj_check r1 H1) as Hc.
  cbv beta in Hc. fold remainders in Hc.
  pose proof (below_bound_check _ 11 Hc r2 H2) as Hc2. cbv beta in Hc2.
  rewrite bool_decide_eq_true_2 in Hc2 by done. by apply N.eqb_eq in Hc2.
Qed.

(** Whatever [computeCheckDigit] returns is one check digit. *)
Lemma computeCheckDigit_digit (vin c : jsstring) :
  computeCheckDigit vin = Return c -> ∃ d, c = [d] ∧ d ∈ check_digits.
Proof.
  rewrite computeCheckDigit_unfold.
  destruct (weighted_sum_from _ _ _ _) as [sum|e]; [|done].
  intros [= <-]. pose proof (check_character_elem sum) as Hc.
  revert Hc. generalize (check_character (sum mod 11)). intros c Hc.
  vm_compute in Hc.
  repeat (apply elem_of_cons in Hc as [->|Hc];
          [eexists; split; [reflexivity|]; by_evaluation|]).
  by apply elem_of_nil in Hc.
Qed.

Lemma check_digit_permitted d : d ∈ check_digits -> d ∈ permitted_alphabet.
Proof.
  intros H. vm_compute in H.
  repeat (apply elem_of_cons in H as [->|H]; [by_evaluation|]).
  by apply elem_of_nil in H.
Qed.

Lemma class_not_separator_check :
  forallb (λ u, implb (VIN_REGEX_class u) (negb (separator u)))
    (N.of_nat <$> seq 0 128) = true.
Proof. vm_compute. reflexivity. Qed.

Lemma class_not_separator u :
  VIN_REGEX_class u = true -> separator u = false.
Proof.
  intros Hc. pose proof (class_below_128 u Hc) as Hu.
  pose proof (below_bound_check _ 128 class_not_separator_check u Hu) as H.
  cbv beta in H. rewrite Hc in H. by apply negb_true_iff in H.
Qed.

(** A string of the permitted alphabet is its own normal form. *)
Lemma normalizeVIN_permitted (v : jsstring) :
  Forall (λ u, u ∈ permitted_alphabet) v -> normalizeVIN v = v.
Proof.
  intros Hv%Forall_class_permitted. rewrite normalizeVIN_unfold.
  rewrite remove_runs_id.
  - by apply toUpperCase_class.
  - eapply Forall_impl; [exact Hv|]. apply class_not_separator.
Qed.

Lemma isValidVIN_true (x : jsstring) :
  isValidVIN x = Return true
  ↔ VIN_REGEX_test (normalizeVIN x) = true
    ∧ ∃ c, computeCheckDigit (normalizeVIN x) = Return c
           ∧ at_index (normalizeVIN x) 8 = Some c.
Proof.
  unfold isValidVIN. rewrite validateVIN_unfold. cbv zeta. cbn [isValid].
  rewrite <- errors_nil. set (errs := length_errors _ ++ _).
  destruct errs as [|e errs]; cbn [length Nat.eqb]; split; done.
Qed.

(** On 17 code units of the permitted alphabet, [isValidVIN] holds exactly
    when the 9th is the computed check digit. *)
Lemma isValidVIN_permitted (v : jsstring) :
  length v = 17%nat -> Forall (λ u, u ∈ permitted_alphabet) v ->
  isValidVIN v = Return true
  ↔ ∃ d, v !! 8%nat = Some d ∧ computeCheckDigit v = Return [d].
Proof.
  intros Hlen Hperm. rewrite isValidVIN_true, normalizeVIN_permitted by done.
  assert (Ht : VIN_REGEX_test v = true) by by apply VIN_REGEX_test_permitted.
  unfold at_index. split.
  - intros (_ & c & Hc & Hat). destruct (v !! 8%nat) as [d|]; [|done].
    injection Hat as <-. by exists d.
  - intros (d & Hd & Hc). split; [done|]. exists [d]. by rewrite Hd.
Qed.

Lemma below_bounds_check (f : N -> N -> N -> N -> bool) (n1 n2 n3 n4 : nat) :
  forallb (λ x1, forallb (λ x2, forallb (λ x3, forallb (f x1 x2 x3)
    (N.of_nat <$> seq 0 n4)) (N.of_nat <$> seq 0 n3))
    (N.of_nat <$> seq 0 n2)) (N.of_nat <$> seq 0 n1) = true ->
  ∀ x1 x2 x3 x4,
    x1 < N.of_nat n1 -> x2 < N.of_nat n2 -> x3 < N.of_nat n3 ->
    x4 < N.of_nat n4 -> f x1 x2 x3 x4 = true.
Proof.
  intros Hall x1 x2 x3 x4 H1 H2 H3 H4.
  pose proof (below_bound_check _ n1 Hall x1 H1) as Ha. cbv beta in Ha.
  pose proof (below_bound_check _ n2 Ha x2 H2) as Hb. cbv beta in Hb.
  pose proof (below_bound_check _ n3 Hb x3 H3) as Hc. cbv beta in Hc.
  exact (below_bound_check _ n4 Hc x4 H4).
Qed.

Lemma substitution_detected_check :
  forallb (λ s, forallb (λ a, forallb (λ b, forallb (substitution_detected s a b)
    (N.of_nat <$> seq 0 17)) (N.of_nat <$> seq 0 10))
    (N.of_nat <$> seq 0 10)) (N.of_nat <$> seq 0 11) = true.
Proof. vm_compute. reflexivity. Qed.

Lemma transposition_detected_check :
  forallb (λ s, forallb (λ a, forallb (λ b, forallb (transposition_detected s a b)
    (N.of_nat <$> seq 0 16)) (N.of_nat <$> seq 0 10))
    (N.of_nat <$> seq 0 10)) (N.of_nat <$> seq 0 11) = true.
Proof. vm_compute. reflexivity. Qed.

Lemma weight_lookup (i : nat) (w : N) :
  WEIGHTS !! i = Some w -> weight (N.of_nat i) = w.
Proof. unfold weight. rewrite Nat2N.id. by intros ->. Qed.

(** The values of a string of 17 permitted code units, and its check digit
    from them. *)
Lemma computeCheckDigit_permitted (v : jsstring) :
  length v = 17%nat -> Forall (λ u, u ∈ permitted_alphabet) v ->
  ∃ vals : list N,
    Forall2 (λ u val, MAP !! [u] = Some val) v vals
    ∧ Forall (λ val, val < 10) vals
    ∧ computeCheckDigit v = Return (check_character (dot vals WEIGHTS mod 11)).
Proof.
  intros Hlen Hperm.
  destruct (computeCheckDigit_test v) as (vals & Hvals & Hret).
  { by apply VIN_REGEX_test_permitted. }
  exists vals. split; [done|]. split; [|done].
  apply Forall_forall. intros val Hval.
  apply list_elem_of_lookup in Hval as [i Hi].
  destruct (Forall2_lookup_r _ _ _ _ _ Hvals Hi) as (u & _ & Hu).
  apply MAP_value_le_9 in Hu. lia.
Qed.

(** The check digit after one code unit is replaced. *)
Lemma computeCheckDigit_insert (v : jsstring) (vals : list N) (i : nat)
    (c : N) (b : N) :
  length v = 17%nat ->
  Forall2 (λ u val, MAP !! [u] = Some val) v vals ->
  MAP !! [c] = Some b ->
  computeCheckDigit (<[i:=c]> v) =
    Return (check_character (dot (<[i:=b]> vals) WEIGHTS mod 11)).
Proof.
  intros Hlen Hvals Hc. apply computeCheckDigit_values.
  - by rewrite length_insert.
  - by apply Forall2_insert.
Qed.

Lemma check_character_mod_inj (D D' : N) :
  check_character (D' mod 11) = check_character (D mod 11) ->
  D' mod 11 = D mod 11.
Proof. apply check_character_inj; by apply N.mod_upper_bound. Qed.

(** A string of 17 permitted code units with the 9th of a valid one and
    another computed check digit records INVALID_CHECK_DIGIT alone. *)
Lemma rejected_by_check_digit (v w : jsstring) :
  length v = 17%nat -> Forall (λ u, u ∈ permitted_alphabet) v ->
  length w = 17%nat -> Forall (λ u, u ∈ permitted_alphabet) w ->
  w !! 8%nat = v !! 8%nat ->
  computeCheckDigit w ≠ computeCheckDigit v ->
  isValidVIN v = Return true ->
  ∃ res, validateVIN w = Return res ∧ errors res = [INVALID_CHECK_DIGIT].
Proof.
  intros Hlv Hpv Hlw Hpw H8 Hne Hvalid.
  apply isValidVIN_permitted in Hvalid as (d & Hd & Hcv); [|done|done].
  destruct (validateVIN_outcome w) as (errs & expected & Hout & Hres).
  rewrite (normalizeVIN_permitted w Hpw) in Hout.
  exists {| isValid := (length errs =? 0)%nat; vin := normalizeVIN w;
            errors := errs;
            checkDigit := default [] (at_index (normalizeVIN w) 8);
            expectedCheckDigit := expected |}.
  split; [exact Hres|]. cbn [errors].
  destruct Hout as [Hlen Ht|e Hlen Ht Hc|c Hlen Ht Hc Hat|c Hlen Ht Hc Hat].
  - done.
  - assert (VIN_REGEX_test w = true) by by apply VIN_REGEX_test_permitted.
    congruence.
  - done.
  - exfalso. apply Hne. unfold at_index in Hat. rewrite H8, Hd in Hat.
    injection Hat as <-. congruence.
Qed.

(** Equal remainders survive adding equal sums. *)
Lemma remainder_shift (D D' p q : N) :
  D' + p = D + q -> D' mod 11 = D mod 11 ->
  (D mod 11 + p) mod 11 = (D mod 11 + q) mod 11.
Proof.
  intros Hsum Hmod. rewrite <- Hmod at 1.
  rewrite !N.Div0.add_mod_idemp_l. by rewrite Hsum.
Qed.

End VinFacts.

(** ** The values of the test suite *)

Module Fixtures.
Import JS Vin.

Example valid_1HGCM82633A004352 :
  validateVIN (lit "1HGCM82633A004352") =
    Return {| isValid := true; vin := lit "1HGCM82633A004352"; errors := [];
              checkDigit := lit "3"; expectedCheckDigit := lit "3" |}.
Proof. vm_compute. reflexivity. Qed.

Example valid_1M8GDM9AXKP042788 :
  validateVIN (lit "1M8GDM9AXKP042788") =
    Return {| isValid := true; vin := lit "1M8GDM9AXKP042788"; errors := [];
              checkDigit := lit "X"; expectedCheckDigit := lit "X" |}.
Proof. vm_compute. reflexivity. Qed.

Example valid_JHMCM56557C404453 :
  validateVIN (lit "JHMCM56557C404453") =
    Return {| isValid := true; vin := lit "JHMCM56557C404453"; errors := [];
              checkDigit := lit "5"; expectedCheckDigit := lit "5" |}.
Proof. vm_compute. reflexivity. Qed.

Example normalize_messy :
  normalizeVIN (lit " 1hg-cm82633a004352 ") = lit "1HGCM82633A004352"
  ∧ normalizeVIN (lit "1HG CM8-2633-A004352") = lit "1HGCM82633A004352"
  ∧ normalizeVIN (lit "  ") = []
  ∧ normalizeVIN [] = []
  ∧ normalizeVIN (lit "   abc   def   ") = lit "ABCDEF"
  ∧ normalizeVIN (lit "a-b-c-d-e-f-g") = lit "ABCDEFG".
Proof. vm_compute. repeat split; reflexivity. Qed.

Example invalid_length_16 :
  validateVIN (lit "1HGCM82633A00435") =
    Return {| isValid := false; vin := lit "1HGCM82633A00435";
              errors := [INVALID_LENGTH; INVALID_CHARACTERS];
              checkDigit := lit "3"; expectedCheckDigit := lit "N/A" |}.
Proof. vm_compute. reflexivity. Qed.

Example invalid_character_I :
  validateVIN (lit "1HGCM82633A00435I") =
    Return {| isValid := false; vin := lit "1HGCM82633A00435I";
              errors := [INVALID_CHARACTERS];
              checkDigit := lit "3"; expectedCheckDigit := lit "N/A" |}.
Proof. vm_compute. reflexivity. Qed.

Example invalid_check_digit :
  validateVIN (lit "1HGCM82603A004352") =
    Return {| isValid := false; vin := lit "1HGCM82603A004352";
              errors := [INVALID_CHECK_DIGIT];
              checkDigit := lit "0"; expectedCheckDigit := lit "3" |}
  ∧ assertVIN (lit "1HGCM82603A004352") =
      Throw (Error (lit "Invalid VIN: INVALID_CHECK_DIGIT (expected check digit: 3)")).
Proof. vm_compute. split; reflexivity. Qed.

Example computeCheckDigit_throws_on_I :
  computeCheckDigit (lit "1HGCM82633A00I352") =
    Throw (Error (lit "Invalid character 'I' at position 14")).
Proof. vm_compute. reflexivity. Qed.

Example computeCheckDigit_missing_position :
  computeCheckDigit (lit "1HGCM82633A00") =
    Throw (Error (lit "Invalid character 'undefined' at position 14")).
Proof. vm_compute. reflexivity. Qed.

Example computeCheckDigit_keeps_separators :
  computeCheckDigit (lit " 1HGCM82633A004352") =
    Throw (Error (lit "Invalid character ' ' at position 1")).
Proof. vm_compute. reflexivity. Qed.

Example toUpperCase_beyond_ascii :
  toUpperCase [0xDF; 0x17F; 0xE9; 0xD801; 0xDC28; 0xD801] =
    lit "SSS" ++ [0xC9; 0xD801; 0xDC00; 0xD801].
Proof. vm_compute. reflexivity. Qed.

End Fixtures.

(** ** The properties of the specification *)

Import JS Vin Notions JSFacts VinFacts.

(** C1: [validateVIN x] reports [isValid] exactly when the normalized input
    has 17 code units, all of the permitted alphabet, and its 9th one is the
    check digit [computeCheckDigit] returns for it; and exactly when the
    list of errors is empty. *)
Theorem validateVIN_valid_iff (x : jsstring) :
  ∃ res, validateVIN x = Return res
    ∧ vin res = normalizeVIN x
    ∧ (isValid res = true
       ↔ length (normalizeVIN x) = 17%nat
         ∧ Forall (λ u, u ∈ permitted_alphabet) (normalizeVIN x)
         ∧ ∃ c, computeCheckDigit (normalizeVIN x) = Return c
                ∧ at_index (normalizeVIN x) 8 = Some c)
    ∧ (isValid res = true ↔ errors res = []).
Proof.
  rewrite validateVIN_unfold. cbv zeta. eexists. split; [reflexivity|].
  cbn [vin isValid errors]. split; [reflexivity|].
  set (errs := length_errors _ ++ _).
  assert (Hnil : (length errs =? 0)%nat = true ↔ errs = []).
  { rewrite Nat.eqb_eq. apply length_zero_iff_nil. }
  split; [|done].
  rewrite Hnil. unfold errs. rewrite errors_nil, VIN_REGEX_test_permitted.
  tauto.
Qed.

(** C2: on a string of 17 code units of the permitted alphabet,
    [computeCheckDigit] returns (it does not throw): with [vals] the
    transliteration values of the 17 positions, it returns ["X"] when the
    sum of the values times the position weights has remainder 10 modulo
    11, and the decimal digit of the remainder otherwise, one character of
    ["0".."9"], ["X"].  There are 17 weights and the 9th is 0. *)
Theorem computeCheckDigit_weighted_sum (v : jsstring)
    (Hlen : length v = 17%nat)
    (Hperm : Forall (λ u, u ∈ permitted_alphabet) v) :
  length WEIGHTS = 17%nat
  ∧ WEIGHTS !! 8%nat = Some 0
  ∧ ∃ vals : list N,
      Forall2 (λ u val, MAP !! [u] = Some val) v vals
      ∧ let remainder := foldr N.add 0 (zip_with N.mul vals WEIGHTS) mod 11 in
        computeCheckDigit v =
          Return (if remainder =? 10 then lit "X"
                  else string_of_number remainder)
        ∧ ∃ c, computeCheckDigit v = Return [c] ∧ c ∈ lit "0123456789X".
Proof.
  split; [reflexivity|]. split; [reflexivity|].
  destruct (computeCheckDigit_test v) as (vals & Hvals & Hret).
  { by apply VIN_REGEX_test_permitted. }
  exists vals. split; [done|]. cbv zeta. split; [exact Hret|].
  rewrite Hret.
  pose proof (check_character_elem (dot vals WEIGHTS)) as Hc.
  revert Hc. generalize (check_character (dot vals WEIGHTS mod 11)).
  intros c Hc. vm_compute in Hc.
  repeat (apply elem_of_cons in Hc as [->|Hc];
          [eexists; split; [reflexivity|]; by_evaluation|]).
  by apply elem_of_nil in Hc.
Qed.

Lemma computeCheckDigit_weighted_sum_witness :
  ∃ c, computeCheckDigit (lit "1M8GDM9AXKP042788") = Return [c]
       ∧ c ∈ lit "0123456789X".
Proof.
  destruct (computeCheckDigit_weighted_sum (lit "1M8GDM9AXKP042788"))
    as (_ & _ & vals & _ & _ & Hc).
  - reflexivity.
  - by_evaluation.
  - exact Hc.
Defined.

(** C3, as stated, fails: an assignment with S 1, T 2, U 3, V 4, W 5 and
    X, P 6 is not the one of [MAP], which has S 2, T 3, U 4, V 5, W 6, X 7
    and P 7. *)
Lemma MAP_not_claimed_groups :
  ¬ follows_groups claimed_letter_groups
  ∧ MAP !! lit "S" = Some 2 ∧ MAP !! lit "T" = Some 3
  ∧ MAP !! lit "U" = Some 4 ∧ MAP !! lit "V" = Some 5
  ∧ MAP !! lit "W" = Some 6 ∧ MAP !! lit "X" = Some 7
  ∧ MAP !! lit "P" = Some 7.
Proof.
  split; [|vm_compute; repeat split; reflexivity].
  intros H. specialize (H (lit "AJS") 1 (code "S")).
  assert (Hs : MAP !! [code "S"] = Some 2) by (vm_compute; reflexivity).
  rewrite Hs in H. discriminate H; by_evaluation.
Qed.

(** C3, amended: the keys of [MAP] are exactly the 33 one-character strings
    of the permitted alphabet, its values are at most 9, every digit has
    its own value, and the letters have the values of ISO 3779: A, J 1;
    B, K, S 2; C, L, T 3; D, M, U 4; E, N, V 5; F, W 6; G, P, X 7; H, Y 8;
    R, Z 9.  I, O, Q have no entry. *)
Theorem MAP_transliteration :
  (∀ k, is_Some (MAP !! k) ↔ ∃ u, k = [u] ∧ u ∈ permitted_alphabet)
  ∧ length permitted_alphabet = 33%nat
  ∧ NoDup permitted_alphabet
  ∧ (∀ k val, MAP !! k = Some val -> val <= 9)
  ∧ (∀ d, d <= 9 -> MAP !! [code "0" + d] = Some d)
  ∧ follows_groups letter_groups
  ∧ MAP !! lit "I" = None ∧ MAP !! lit "O" = None ∧ MAP !! lit "Q" = None.
Proof.
  split; [|split; [reflexivity|split; [by_evaluation|split; [|split; [|split]]]]].
  - intros k. split.
    + intros [val Hval]. apply MAP_lookup_elem in Hval. vm_compute in Hval.
      repeat (apply elem_of_cons in Hval as [Hval|Hval];
              [injection Hval as -> _; eexists; split; [reflexivity|];
               by_evaluation|]).
      by apply elem_of_nil in Hval.
    + intros (u & -> & Hu). by apply MAP_class, class_permitted.
  - apply MAP_value_le_9.
  - intros d Hd.
    assert (Hchk : forallb (λ d, bool_decide (MAP !! [code "0" + d] = Some d))
                     (N.of_nat <$> seq 0 10) = true)
      by (vm_compute; reflexivity).
    pose proof (below_bound_check _ 10 Hchk d ltac:(lia)) as H.
    by apply bool_decide_eq_true in H.
  - intros letters val u Hg Hu. vm_compute in Hg.
    repeat (apply elem_of_cons in Hg as [Hg|Hg];
            [injection Hg as -> ->;
             repeat (apply elem_of_cons in Hu as [->|Hu];
                     [vm_compute; reflexivity|]);
             by apply elem_of_nil in Hu|]).
    by apply elem_of_nil in Hg.
  - vm_compute. repeat split; reflexivity.
Qed.

Lemma MAP_transliteration_witness :
  MAP !! lit "7" = Some 7 ∧ MAP !! lit "X" = Some 7.
Proof.
  destruct MAP_transliteration as (_ & _ & _ & _ & Hdigit & Hgroups & _).
  split.
  - apply (Hdigit 7). vm_compute. congruence.
  - apply (Hgroups (lit "GPX") 7 (code "X")); by_evaluation.
Defined.

(** C4: [validateVIN] records INVALID_CHARACTERS exactly when the normalized
    input is not a string of 17 code units of the permitted alphabet, and
    INVALID_LENGTH exactly when its length is not 17; an input of wrong
    length with a forbidden character records both, in this order. *)
Theorem validateVIN_invalid_characters (x : jsstring) :
  ∃ res, validateVIN x = Return res
    ∧ (INVALID_CHARACTERS ∈ errors res
       ↔ ¬ (length (normalizeVIN x) = 17%nat
            ∧ Forall (λ u, u ∈ permitted_alphabet) (normalizeVIN x)))
    ∧ (INVALID_LENGTH ∈ errors res ↔ length (normalizeVIN x) ≠ 17%nat)
    ∧ (length (normalizeVIN x) ≠ 17%nat ->
       (∃ u, u ∈ normalizeVIN x ∧ u ∉ permitted_alphabet) ->
       errors res = [INVALID_LENGTH; INVALID_CHARACTERS]).
Proof.
  destruct (validateVIN_outcome x) as (errs & expected & Hout & ->).
  eexists. split; [reflexivity|]. cbn [errors].
  destruct (outcome_errors _ _ _ Hout) as (HL & HC & _).
  rewrite <- VIN_REGEX_test_false. split; [done|]. split; [done|].
  intros Hlen _. by destruct Hout.
Qed.

Lemma validateVIN_invalid_characters_witness :
  ∃ res, validateVIN (lit "1HGCM8263IA00435") = Return res
         ∧ errors res = [INVALID_LENGTH; INVALID_CHARACTERS].
Proof.
  destruct (validateVIN_invalid_characters (lit "1HGCM8263IA00435"))
    as (res & Hres & _ & _ & Hboth).
  exists res. split; [exact Hres|]. apply Hboth.
  - vm_compute. lia.
  - exists (code "I"). split; by_evaluation.
Defined.

(** C5: [validateVIN] calls the calculator only on a normalized input of 17
    code units: otherwise the expected check digit is ["N/A"] and no
    INVALID_CHECK_DIGIT is recorded.  When the calculator throws, the
    expected check digit is ["N/A"] and INVALID_CHARACTERS is the only
    error; when the pattern does not match, no comparison is made.
    INVALID_CHECK_DIGIT is recorded exactly when the normalized input has
    17 code units of the permitted alphabet and its 9th differs from the
    check digit the calculator returns. *)
Theorem validateVIN_check_digit (x : jsstring) :
  ∃ res, validateVIN x = Return res
    ∧ (length (normalizeVIN x) ≠ 17%nat ->
       expectedCheckDigit res = lit "N/A"
       ∧ INVALID_CHECK_DIGIT ∉ errors res)
    ∧ (length (normalizeVIN x) = 17%nat ->
       ∀ c, computeCheckDigit (normalizeVIN x) = Return c ->
            expectedCheckDigit res = c)
    ∧ (length (normalizeVIN x) = 17%nat ->
       ∀ e, computeCheckDigit (normalizeVIN x) = Throw e ->
            expectedCheckDigit res = lit "N/A"
            ∧ errors res = [INVALID_CHARACTERS])
    ∧ (¬ Forall (λ u, u ∈ permitted_alphabet) (normalizeVIN x) ->
       INVALID_CHECK_DIGIT ∉ errors res)
    ∧ (INVALID_CHECK_DIGIT ∈ errors res
       ↔ length (normalizeVIN x) = 17%nat
         ∧ Forall (λ u, u ∈ permitted_alphabet) (normalizeVIN x)
         ∧ ∃ c, computeCheckDigit (normalizeVIN x) = Return c
                ∧ at_index (normalizeVIN x) 8 ≠ Some c).
Proof.
  destruct (validateVIN_outcome x) as (errs & expected & Hout & ->).
  eexists. split; [reflexivity|]. cbn [errors expectedCheckDigit].
  destruct (outcome_errors _ _ _ Hout) as (_ & _ & HD).
  rewrite HD, VIN_REGEX_test_permitted. clear HD.
  split; [|split; [|split; [|split]]].
  - intros Hlen. split; [by destruct Hout|]. tauto.
  - intros Hlen c Hc. destruct Hout; congruence.
  - intros Hlen e He. destruct Hout; try congruence. done.
  - tauto.
  - tauto.
Qed.

Lemma validateVIN_check_digit_witness :
  ∃ res, validateVIN (lit "1HGCM82603A004352") = Return res
         ∧ expectedCheckDigit res = lit "3"
         ∧ INVALID_CHECK_DIGIT ∈ errors res.
Proof.
  destruct (validateVIN_check_digit (lit "1HGCM82603A004352"))
    as (res & Hres & _ & Hexp & _ & _ & Hrec).
  exists res. split; [exact Hres|]. split.
  - apply Hexp; vm_compute; reflexivity.
  - apply Hrec. split; [vm_compute; reflexivity|]. split; [by_evaluation|].
    exists (lit "3"). split; [vm_compute; reflexivity|]. vm_compute. congruence.
Defined.

(** C6, as stated, fails: [computeCheckDigit] upper-cases its argument
    itself.  The second character of ["1hgcm82633a004352"], ["h"], has no
    entry in [MAP], and the call returns ["3"]. *)
Lemma computeCheckDigit_lower_case :
  MAP !! to_string (at_index (lit "1hgcm82633a004352") 1) = None
  ∧ computeCheckDigit (lit "1hgcm82633a004352") = Return (lit "3").
Proof. vm_compute. split; reflexivity. Qed.

(** C6, amended: [computeCheckDigit] upper-cases its argument (and does
    nothing else to it); whenever one of the first 17 positions of the
    upper-cased argument has no entry in [MAP] (a character outside the
    permitted alphabet, or no character at all), it throws, and the error
    names the first such position, 1-based, and the character there. *)
Theorem computeCheckDigit_untransliterable (vin : jsstring) (k : nat)
    (Hk : (k < 17)%nat)
    (Hnone : MAP !! to_string (at_index (toUpperCase vin) k) = None) :
  ∃ k0, (k0 <= k)%nat
    ∧ MAP !! to_string (at_index (toUpperCase vin) k0) = None
    ∧ (∀ j, (j < k0)%nat ->
            is_Some (MAP !! to_string (at_index (toUpperCase vin) j)))
    ∧ computeCheckDigit vin =
        Throw (Error (lit "Invalid character '"
                      ++ to_string (at_index (toUpperCase vin) k0)
                      ++ lit "' at position "
                      ++ string_of_number (N.of_nat (k0 + 1)))).
Proof.
  fold (position_value (toUpperCase vin) k) in Hnone.
  destruct (first_missing (toUpperCase vin) k)
    as [Hall|(k0 & Hk0 & Hnone0 & Hbefore)].
  - exists k. split; [lia|]. split; [exact Hnone|]. split; [exact Hall|].
    apply computeCheckDigit_throw; [exact Hk|exact Hall|exact Hnone].
  - exists k0. split; [lia|]. split; [exact Hnone0|]. split; [exact Hbefore|].
    apply computeCheckDigit_throw; [unfold VIN_LENGTH; lia|done|done].
Qed.

Lemma computeCheckDigit_untransliterable_witness :
  computeCheckDigit (lit "1HGCM82633A00I352") =
    Throw (Error (lit "Invalid character 'I' at position 14")).
Proof.
  destruct (computeCheckDigit_untransliterable (lit "1HGCM82633A00I352") 13)
    as (k0 & Hk0 & Hnone & Hbefore & ->).
  - lia.
  - vm_compute. reflexivity.
  - assert (k0 = 13%nat) as ->; [|vm_compute; reflexivity].
    destruct (decide (k0 = 13%nat)) as [|Hne]; [done|exfalso].
    assert (Hlt : (k0 < 13)%nat) by lia. clear Hk0 Hne Hbefore.
    revert Hnone.
    do 13 (destruct k0 as [|k0]; [vm_compute; congruence|]). lia.
Defined.

(** C7, as stated, fails: an input with a character outside ASCII need not
    record INVALID_CHARACTERS.  A no-break space (U+00A0) after a
    well-formed VIN is white space for the pattern of [normalizeVIN], and
    the input is valid. *)
Lemma validateVIN_no_break_space :
  (∃ u, u ∈ lit "1HGCM82633A004352" ++ [0xA0] ∧ 128 <= u)
  ∧ validateVIN (lit "1HGCM82633A004352" ++ [0xA0]) =
      Return {| isValid := true;
                vin := lit "1HGCM82633A004352";
                errors := [];
                checkDigit := lit "3";
                expectedCheckDigit := lit "3" |}.
Proof.
  split; [|vm_compute; reflexivity].
  exists 0xA0. split; [by_evaluation|lia].
Qed.

(** C7, amended: [validateVIN] returns a result for every string, it never
    throws; the result is invalid exactly when it lists an error; and an
    input whose normalized form has a character outside ASCII records
    INVALID_CHARACTERS. *)
Theorem validateVIN_total (x : jsstring) :
  ∃ res, validateVIN x = Return res
    ∧ (isValid res = false ↔ errors res ≠ [])
    ∧ ((∃ u, u ∈ normalizeVIN x ∧ 128 <= u) ->
       INVALID_CHARACTERS ∈ errors res ∧ isValid res = false).
Proof.
  destruct (validateVIN_outcome x) as (errs & expected & Hout & ->).
  eexists. split; [reflexivity|]. cbn [errors isValid].
  assert (Hvalid : (length errs =? 0)%nat = false ↔ errs ≠ []).
  { rewrite Nat.eqb_neq. by rewrite length_zero_iff_nil. }
  split; [done|]. intros (u & Hu & Hbig).
  assert (Hin : INVALID_CHARACTERS ∈ errs).
  { apply (outcome_errors _ _ _ Hout), VIN_REGEX_test_false.
    intros [_ Hperm]. rewrite Forall_forall in Hperm.
    apply Hperm, permitted_below_128 in Hu. lia. }
  split; [done|]. apply Hvalid. intros ->. by apply elem_of_nil in Hin.
Qed.

Lemma validateVIN_total_witness :
  ∃ res, validateVIN (lit "1HGCM82633A00435" ++ [0xE9]) = Return res
         ∧ INVALID_CHARACTERS ∈ errors res ∧ isValid res = false.
Proof.
  destruct (validateVIN_total (lit "1HGCM82633A00435" ++ [0xE9]))
    as (res & Hres & _ & Hchars).
  exists res. split; [exact Hres|]. apply Hchars.
  exists 0xC9. split; [by_evaluation|lia].
Defined.

(** C8: [isValidVIN x] is the [isValid] of [validateVIN x]; [assertVIN x]
    throws exactly when [isValidVIN x] is [false]; the message of the error
    is ["Invalid VIN: "], the recorded codes joined by [", "] and the
    expected check digit, so every recorded code and the expected check
    digit occur in it; when [isValidVIN x] is [true], [assertVIN x] returns
    the normalized string. *)
Theorem assertVIN_isValidVIN (x : jsstring) :
  ∃ res, validateVIN x = Return res
    ∧ isValidVIN x = Return (isValid res)
    ∧ ((∃ e, assertVIN x = Throw e) ↔ isValidVIN x = Return false)
    ∧ (isValidVIN x = Return true -> assertVIN x = Return (normalizeVIN x))
    ∧ (isValidVIN x = Return false ->
       ∃ message,
         assertVIN x = Throw (Error message)
         ∧ message = lit "Invalid VIN: "
                     ++ join (lit ", ") (code_text <$> errors res)
                     ++ lit " (expected check digit: "
                     ++ expectedCheckDigit res ++ lit ")"
         ∧ (∀ c, c ∈ errors res ->
              ∃ before after, message = before ++ code_text c ++ after)
         ∧ (∃ before after,
              message = before ++ expectedCheckDigit res ++ after)).
Proof.
  destruct (validateVIN_outcome x) as (errs & expected & Hout & Hres).
  eexists. split; [exact Hres|]. unfold isValidVIN, assertVIN.
  rewrite Hres. cbn [isValid errors expectedCheckDigit vin].
  destruct (length errs =? 0)%nat; cbn [negb].
  - split; [done|]. split; [|split; [done|done]].
    split; [by intros [e ?]|done].
  - split; [done|]. split; [|split; [done|]].
    { split; [done|]. intros _. by eexists. }
    intros _. eexists. split; [reflexivity|]. split; [reflexivity|]. split.
    + intros c Hc.
      destruct (join_factor (lit ", ") (code_text c) (code_text <$> errs))
        as (before & after & ->).
      { by apply list_elem_of_fmap_2. }
      exists (lit "Invalid VIN: " ++ before),
        (after ++ lit " (expected check digit: " ++ expected ++ lit ")").
      by rewrite <- !app_assoc.
    + exists (lit "Invalid VIN: " ++ join (lit ", ") (code_text <$> errs)
              ++ lit " (expected check digit: "), (lit ")").
      by rewrite <- !app_assoc.
Qed.

Lemma assertVIN_isValidVIN_witness :
  assertVIN (lit "1M8GDM9AXKP042788") = Return (lit "1M8GDM9AXKP042788")
  ∧ ∃ message,
      assertVIN (lit "1HGCM82603A004352") = Throw (Error message)
      ∧ ∃ before after, message = before ++ lit "INVALID_CHECK_DIGIT" ++ after.
Proof.
  split.
  - destruct (assertVIN_isValidVIN (lit "1M8GDM9AXKP042788"))
      as (res & _ & _ & _ & Hok & _).
    rewrite Hok; vm_compute; reflexivity.
  - destruct (assertVIN_isValidVIN (lit "1HGCM82603A004352"))
      as (res & Hres & _ & _ & _ & Hthrow).
    destruct Hthrow as (message & Hmsg & _ & Hcodes & _).
    { vm_compute. reflexivity. }
    exists message. split; [exact Hmsg|].
    apply (Hcodes INVALID_CHECK_DIGIT).
    vm_compute in Hres. injection Hres as <-. by_evaluation.
Defined.

(** C9: [normalizeVIN] is idempotent. *)
Theorem normalizeVIN_idempotent (s : jsstring) :
  normalizeVIN (normalizeVIN s) = normalizeVIN s.
Proof.
  rewrite (normalizeVIN_unfold (normalizeVIN s)).
  rewrite remove_runs_id by apply normalizeVIN_separator_free.
  apply toUpperCase_normalizeVIN.
Qed.

(** C10, as stated, fails: a string shorter than 17 code units can have an
    upper-cased form of 17 or more.  Nine times U+00DF (sharp s) becomes
    eighteen times ["S"], and [computeCheckDigit] returns ["2"]. *)
Lemma computeCheckDigit_sharp_s :
  (length (replicate 9 0xDF) < 17)%nat
  ∧ toUpperCase (replicate 9 0xDF) = lit "SSSSSSSSSSSSSSSSSS"
  ∧ computeCheckDigit (replicate 9 0xDF) = Return (lit "2").
Proof. split; [cbn; lia|]. vm_compute. split; reflexivity. Qed.

(** C10, amended: two strings with the same first 17 code units have the
    same outcome of [computeCheckDigit] (the same returned value or the
    same error); [computeCheckDigit] throws for every string whose
    upper-cased form has fewer than 17 code units, so for every ASCII
    string of fewer than 17 characters; when every character there is has a
    value, the error names the character ["undefined"] at the first missing
    position. *)
Theorem computeCheckDigit_first_17 :
  (∀ a b : jsstring,
     take 17 a = take 17 b -> computeCheckDigit a = computeCheckDigit b)
  ∧ (∀ vin : jsstring,
       (length (toUpperCase vin) < 17)%nat ->
       ∃ e, computeCheckDigit vin = Throw e)
  ∧ (∀ vin : jsstring,
       Forall (λ u, u < 128) vin -> (length vin < 17)%nat ->
       ∃ e, computeCheckDigit vin = Throw e)
  ∧ (∀ vin : jsstring,
       (length (toUpperCase vin) < 17)%nat ->
       Forall (λ u, is_Some (MAP !! [u])) (toUpperCase vin) ->
       computeCheckDigit vin =
         Throw (Error (lit "Invalid character 'undefined' at position "
                       ++ string_of_number
                            (N.of_nat (length (toUpperCase vin) + 1))))).
Proof.
  assert (Hshort : ∀ vin : jsstring,
            (length (toUpperCase vin) < 17)%nat ->
            ∃ e, computeCheckDigit vin = Throw e).
  { intros vin Hlen.
    destruct (computeCheckDigit_first_missing vin (length (toUpperCase vin)))
      as (k0 & _ & _ & _ & ->); [done| |by eexists].
    apply position_value_None, lookup_ge_None. lia. }
  split; [|split; [|split]].
  - intros a b Hagree. by apply computeCheckDigit_take.
  - exact Hshort.
  - intros vin Hascii Hlen. apply Hshort.
    by rewrite toUpperCase_ascii_length.
  - intros vin Hlen Hall.
    assert (Hend : toUpperCase vin !! length (toUpperCase vin) = None).
    { apply lookup_ge_None. lia. }
    rewrite (computeCheckDigit_throw vin (length (toUpperCase vin))).
    + unfold invalid_character, at_index. rewrite Hend. reflexivity.
    + exact Hlen.
    + intros j Hj. destruct (lookup_lt_is_Some_2 _ _ Hj) as [u Hu].
      rewrite (position_value_Some _ _ _ Hu).
      rewrite Forall_forall in Hall. apply Hall.
      by eapply list_elem_of_lookup_2.
    + by apply position_value_None.
Qed.

Lemma computeCheckDigit_first_17_witness :
  computeCheckDigit (lit "1HGCM82633A004352-and-more") =
    computeCheckDigit (lit "1HGCM82633A004352")
  ∧ computeCheckDigit (lit "1HGCM82633A00435") =
      Throw (Error (lit "Invalid character 'undefined' at position 17")).
Proof.
  destruct computeCheckDigit_first_17 as (Hagree & _ & _ & Hmissing).
  split.
  - apply Hagree. vm_compute. reflexivity.
  - rewrite (Hmissing (lit "1HGCM82633A00435")).
    + vm_compute. reflexivity.
    + vm_compute. lia.
    + by_evaluation.
Defined.

(** ** Further properties of the source *)

(** X1: the errors of a result are one of four lists: none; INVALID_LENGTH
    followed by INVALID_CHARACTERS; INVALID_CHARACTERS alone;
    INVALID_CHECK_DIGIT alone.  So INVALID_LENGTH never comes without
    INVALID_CHARACTERS, and INVALID_CHECK_DIGIT never with another code. *)
Theorem validateVIN_error_lists (x : jsstring) :
  ∃ res, validateVIN x = Return res
    ∧ errors res ∈ [ []; [INVALID_LENGTH; INVALID_CHARACTERS];
                     [INVALID_CHARACTERS]; [INVALID_CHECK_DIGIT] ]
    ∧ (errors res = [INVALID_LENGTH; INVALID_CHARACTERS]
       ↔ length (normalizeVIN x) ≠ 17%nat).
Proof.
  destruct (validateVIN_outcome x) as (errs & expected & Hout & ->).
  eexists. split; [reflexivity|]. cbn [errors].
  destruct Hout; (split; [by_evaluation|]); split; done.
Qed.

(** X2: the expected check digit of a result is ["N/A"] exactly when
    INVALID_CHARACTERS is recorded; otherwise it is the one character
    [computeCheckDigit] returns for the normalized input.  No expected
    digit is ever reported for an input that fails the pattern. *)
Theorem validateVIN_expected_check_digit (x : jsstring) :
  ∃ res, validateVIN x = Return res
    ∧ (expectedCheckDigit res = lit "N/A"
       ↔ INVALID_CHARACTERS ∈ errors res)
    ∧ (expectedCheckDigit res = lit "N/A"
       ∨ ∃ d, expectedCheckDigit res = [d] ∧ d ∈ check_digits
              ∧ computeCheckDigit (normalizeVIN x) = Return [d]).
Proof.
  destruct (validateVIN_outcome x) as (errs & expected & Hout & ->).
  eexists. split; [reflexivity|]. cbn [errors expectedCheckDigit].
  destruct Hout as [Hlen Ht|e Hlen Ht Hc|c Hlen Ht Hc Hd|c Hlen Ht Hc Hd].
  - split; [|by left]. split; [intros _; by_evaluation|done].
  - split; [|by left]. split; [intros _; by_evaluation|done].
  - destruct (computeCheckDigit_digit _ _ Hc) as (d & -> & Hdig).
    split; [|right; by exists d]. split; [done|].
    intros Hin. exfalso. revert Hin. by_evaluation.
  - destruct (computeCheckDigit_digit _ _ Hc) as (d & -> & Hdig).
    split; [|right; by exists d]. split; [done|].
    intros Hin. exfalso. revert Hin. by_evaluation.
Qed.

(** X3: the [checkDigit] of a result is the 9th code unit of the normalized
    input, and the empty string when there are fewer than 9.  In a valid
    result it equals the expected check digit; when INVALID_CHECK_DIGIT is
    recorded it is one code unit that differs from it. *)
Theorem validateVIN_checkDigit (x : jsstring) :
  ∃ res, validateVIN x = Return res
    ∧ checkDigit res = take 1 (drop 8 (normalizeVIN x))
    ∧ (checkDigit res = [] ↔ (length (normalizeVIN x) < 9)%nat)
    ∧ (isValid res = true -> checkDigit res = expectedCheckDigit res)
    ∧ (INVALID_CHECK_DIGIT ∈ errors res ->
       length (checkDigit res) = 1%nat
       ∧ checkDigit res ≠ expectedCheckDigit res).
Proof.
  destruct (validateVIN_outcome x) as (errs & expected & Hout & ->).
  eexists. split; [reflexivity|].
  cbn [errors expectedCheckDigit checkDigit isValid].
  set (v := normalizeVIN x) in *.
  assert (Hfield : default [] (at_index v 8) = take 1 (drop 8 v)).
  { unfold at_index. destruct (v !! 8%nat) as [u|] eqn:Hu.
    - by rewrite (drop_S _ _ _ Hu).
    - apply lookup_ge_None in Hu. by rewrite drop_ge. }
  split; [exact Hfield|]. split; [|split].
  - unfold at_index. destruct (v !! 8%nat) as [u|] eqn:Hu.
    + apply lookup_lt_Some in Hu. cbn. split; [done|lia].
    + apply lookup_ge_None in Hu. cbn. split; [lia|done].
  - intros Hvalid. destruct Hout as [| | |c _ _ _ Hat]; try done.
    by rewrite Hat.
  - intros Hin. destruct Hout as [| |c Hlen _ _ Hat|];
      try (exfalso; revert Hin; by_evaluation).
    unfold at_index in *. destruct (v !! 8%nat) as [u|] eqn:Hu.
    + split; [done|]. cbn. congruence.
    + apply lookup_ge_None in Hu. lia.
Qed.

Lemma validateVIN_checkDigit_witness :
  ∃ res, validateVIN (lit "1hgcm826-33a004352") = Return res
         ∧ checkDigit res = expectedCheckDigit res.
Proof.
  destruct (validateVIN_checkDigit (lit "1hgcm826-33a004352"))
    as (res & Hres & _ & _ & Hvalid & _).
  exists res. split; [exact Hres|]. apply Hvalid.
  vm_compute in Hres. by injection Hres as <-.
Defined.

(** X4: validating the [vin] of a result gives the same result again: the
    normalized string is validated as it is. *)
Theorem validateVIN_vin_again (x : jsstring) :
  ∃ res, validateVIN x = Return res
    ∧ normalizeVIN (vin res) = vin res
    ∧ validateVIN (vin res) = Return res.
Proof.
  destruct (validateVIN_outcome x) as (errs & expected & _ & Hres).
  eexists. split; [exact Hres|]. cbn [vin].
  split; [apply normalizeVIN_normalized|].
  rewrite <- Hres. apply validateVIN_same_normal, normalizeVIN_normalized.
Qed.

(** X5: what [assertVIN] returns is the normalized input: 17 code units of
    the permitted alphabet, the 9th being the check digit of the string;
    it is its own normal form, and [assertVIN] and [isValidVIN] accept it
    again. *)
Theorem assertVIN_returns (x v : jsstring)
    (Hv : assertVIN x = Return v) :
  v = normalizeVIN x
  ∧ length v = 17%nat
  ∧ Forall (λ u, u ∈ permitted_alphabet) v
  ∧ (∃ d, v !! 8%nat = Some d ∧ computeCheckDigit v = Return [d])
  ∧ normalizeVIN v = v
  ∧ assertVIN v = Return v
  ∧ isValidVIN v = Return true.
Proof.
  unfold assertVIN in Hv.
  destruct (validateVIN_outcome x) as (errs & expected & Hout & Hres).
  rewrite Hres in Hv. cbn [isValid vin] in Hv.
  destruct Hout as [| | |c Hlen Ht Hc Hat]; try done.
  cbn in Hv. injection Hv as <-.
  set (v := normalizeVIN x) in *.
  pose proof Ht as [_ Hperm]%VIN_REGEX_test_permitted.
  assert (Hvalid : isValidVIN v = Return true).
  { apply isValidVIN_true. unfold v. rewrite normalizeVIN_normalized.
    split; [done|]. by exists c. }
  split; [done|]. split; [done|]. split; [done|]. split; [|split; [|split]].
  - by apply isValidVIN_permitted.
  - apply normalizeVIN_normalized.
  - unfold assertVIN.
    rewrite (validateVIN_same_normal v x) by apply normalizeVIN_normalized.
    rewrite Hres. reflexivity.
  - exact Hvalid.
Qed.

Lemma assertVIN_returns_witness :
  assertVIN (lit "JHMCM56557C404453") = Return (lit "JHMCM56557C404453")
  ∧ isValidVIN (lit "JHMCM56557C404453") = Return true.
Proof.
  split; [vm_compute; reflexivity|].
  apply (assertVIN_returns (lit " jhm-cm56557c404453 ")).
  vm_compute. reflexivity.
Defined.

(** X6: white space and hyphens are ignored wherever they stand: an input
    with a run of them inserted has the same normal form, the same
    validation result and the same outcome of [isValidVIN] and
    [assertVIN]. *)
Theorem separators_ignored (a s b : jsstring)
    (Hs : Forall (λ u, separator u = true) s) :
  normalizeVIN (a ++ s ++ b) = normalizeVIN (a ++ b)
  ∧ validateVIN (a ++ s ++ b) = validateVIN (a ++ b)
  ∧ isValidVIN (a ++ s ++ b) = isValidVIN (a ++ b)
  ∧ assertVIN (a ++ s ++ b) = assertVIN (a ++ b).
Proof.
  assert (Hn : normalizeVIN (a ++ s ++ b) = normalizeVIN (a ++ b)).
  { rewrite !normalizeVIN_unfold, !remove_runs_app.
    apply remove_runs_nil in Hs. by rewrite Hs. }
  pose proof (validateVIN_same_normal _ _ Hn) as Hval.
  unfold isValidVIN, assertVIN. by rewrite Hval.
Qed.

Lemma separators_ignored_witness :
  isValidVIN (lit "1HGCM826" ++ lit " - " ++ lit "33A004352") = Return true.
Proof.
  destruct (separators_ignored (lit "1HGCM826") (lit " - ") (lit "33A004352"))
    as (_ & _ & -> & _).
  - by_evaluation.
  - vm_compute. reflexivity.
Defined.

(** X7: the [trim] of [normalizeVIN] never removes anything: after the
    replacement no white space is left, so [normalizeVIN] is the
    replacement followed by [toUpperCase]. *)
Theorem normalizeVIN_trim_redundant (input : jsstring) :
  trim (remove_runs separator input) = remove_runs separator input
  ∧ normalizeVIN input = toUpperCase (remove_runs separator input).
Proof.
  assert (Ht : trim (remove_runs separator input) = remove_runs separator input).
  { apply trim_id. eapply Forall_impl; [apply remove_runs_free|].
    apply separator_white_space. }
  split; [exact Ht|]. unfold normalizeVIN. by rewrite Ht.
Qed.

(** X8: the normal form has no white space and no hyphen, and it is the
    empty string exactly when the input has nothing else. *)
Theorem normalizeVIN_separators (input : jsstring) :
  Forall (λ u, separator u = false) (normalizeVIN input)
  ∧ (normalizeVIN input = [] ↔ Forall (λ u, separator u = true) input).
Proof.
  split; [apply normalizeVIN_separator_free|].
  by rewrite normalizeVIN_unfold, toUpperCase_eq_nil, remove_runs_nil.
Qed.

(** X9: on an ASCII input, [normalizeVIN] drops the white space and the
    hyphens and maps [a]..[z] to [A]..[Z], unit by unit: the result is
    ASCII and not longer than the input. *)
Theorem normalizeVIN_ascii (input : jsstring)
    (Hascii : Forall (λ u, u < 128) input) :
  normalizeVIN input = ascii_upper <$> remove_runs separator input
  ∧ Forall (λ u, u < 128) (normalizeVIN input)
  ∧ (length (normalizeVIN input) <= length input)%nat.
Proof.
  assert (Hn : normalizeVIN input = ascii_upper <$> remove_runs separator input).
  { rewrite normalizeVIN_unfold. apply toUpperCase_ascii.
    by apply remove_runs_Forall. }
  split; [exact Hn|]. rewrite Hn. split.
  - apply Forall_fmap. eapply Forall_impl.
    + apply (remove_runs_Forall _ separator _ Hascii).
    + intros u Hu. by apply ascii_upper_below_128.
  - rewrite length_fmap. apply remove_runs_length.
Qed.

Lemma normalizeVIN_ascii_witness :
  normalizeVIN (lit " 1hg-cm82633a004352 ") = lit "1HGCM82633A004352".
Proof.
  destruct (normalizeVIN_ascii (lit " 1hg-cm82633a004352 ")) as (-> & _).
  - by_evaluation.
  - vm_compute. reflexivity.
Defined.

(** X10: the two outcomes of [computeCheckDigit], for every argument, with
    [v] its upper-cased form: it returns one character of ["0".."9"],
    ["X"], and [v] has at least 17 code units, the first 17 of the
    permitted alphabet; or it throws, and the error names the first of the
    17 positions (1-based) where [v] has no permitted character, and the
    character there (["undefined"] beyond the end of [v]). *)
Theorem computeCheckDigit_outcome (vin : jsstring) :
  (∃ d, computeCheckDigit vin = Return [d] ∧ d ∈ check_digits
        ∧ (17 <= length (toUpperCase vin))%nat
        ∧ Forall (λ u, u ∈ permitted_alphabet) (take 17 (toUpperCase vin)))
  ∨ (∃ k, (k < 17)%nat
        ∧ (∀ j, (j < k)%nat ->
             ∃ u, toUpperCase vin !! j = Some u ∧ u ∈ permitted_alphabet)
        ∧ (∀ u, toUpperCase vin !! k = Some u -> u ∉ permitted_alphabet)
        ∧ computeCheckDigit vin =
            Throw (Error (lit "Invalid character '"
                          ++ to_string (at_index (toUpperCase vin) k)
                          ++ lit "' at position "
                          ++ string_of_number (N.of_nat (k + 1))))).
Proof.
  set (v := toUpperCase vin).
  destruct (first_missing v 17) as [Hall|(k & Hk & Hnone & Hbefore)].
  - left. destruct (proj2 (computeCheckDigit_returns vin) Hall) as [c Hc].
    destruct (computeCheckDigit_digit _ _ Hc) as (d & -> & Hd).
    exists d. split; [done|]. split; [done|].
    assert (Hlen : (17 <= length v)%nat).
    { destruct (Hall 16%nat ltac:(unfold VIN_LENGTH; lia)) as [val Hval].
      destruct (v !! 16%nat) as [u|] eqn:Hu.
      - apply lookup_lt_Some in Hu. lia.
      - by rewrite (position_value_None _ _ Hu) in Hval. }
    split; [done|]. apply Forall_forall. intros u Hu.
    apply list_elem_of_lookup in Hu as [j Hj].
    apply lookup_take_Some in Hj as [Hj Hlt].
    destruct (proj1 (position_value_is_Some v j) (Hall j Hlt))
      as (u' & Hu' & Hperm).
    congruence.
  - right. exists k. split; [done|]. split; [|split].
    + intros j Hj. by apply position_value_is_Some, Hbefore.
    + intros u Hu Hperm.
      assert (is_Some (position_value v k)) as [val Hval].
      { apply position_value_is_Some. by exists u. }
      congruence.
    + by apply computeCheckDigit_throw.
Qed.



(** X12: the 9th character does not count for the check digit: replacing
    it by any permitted character leaves the result of [computeCheckDigit]
    unchanged.  So every string of 17 permitted characters becomes a valid
    VIN by writing its computed check digit at the 9th position, and no
    other permitted character there makes it valid. *)
Theorem computeCheckDigit_ninth (v : jsstring) (c : N)
    (Hlen : length v = 17%nat)
    (Hperm : Forall (λ u, u ∈ permitted_alphabet) v)
    (Hc : c ∈ permitted_alphabet) :
  computeCheckDigit (<[8%nat:=c]> v) = computeCheckDigit v
  ∧ ∃ d, computeCheckDigit v = Return [d]
         ∧ isValidVIN (<[8%nat:=d]> v) = Return true
         ∧ (isValidVIN (<[8%nat:=c]> v) = Return true ↔ c = d).
Proof.
  destruct (computeCheckDigit_permitted v Hlen Hperm) as (vals & Hvals & _ & Hret).
  assert (Hsame : ∀ c', c' ∈ permitted_alphabet ->
            computeCheckDigit (<[8%nat:=c']> v) = computeCheckDigit v).
  { intros c' Hc'. apply class_permitted, MAP_class in Hc' as [b Hb].
    rewrite (computeCheckDigit_insert v vals 8 c' b Hlen Hvals Hb), Hret.
    destruct (lookup_lt_is_Some_2 vals 8) as [a Ha].
    { apply Forall2_length in Hvals. lia. }
    pose proof (dot_insert vals WEIGHTS 8 a b 0 Ha eq_refl) as Hdot.
    rewrite !N.mul_0_r, !N.add_0_r in Hdot. by rewrite Hdot. }
  split; [by apply Hsame|].
  destruct (computeCheckDigit_digit _ _ Hret) as (d & Hd & Hdig).
  rewrite Hd in Hret. exists d. split; [exact Hret|].
  assert (Hvalid : ∀ c', c' ∈ permitted_alphabet ->
            isValidVIN (<[8%nat:=c']> v) = Return true ↔ c' = d).
  { intros c' Hc'. rewrite isValidVIN_permitted.
    - rewrite list_lookup_insert_eq by lia. rewrite (Hsame c' Hc'), Hret.
      split; [intros (d' & [= <-] & [= <-]); done|intros ->; by exists d].
    - by rewrite length_insert.
    - by apply Forall_insert. }
  split; [|by apply Hvalid].
  by apply (Hvalid d (check_digit_permitted d Hdig)).
Qed.

Lemma computeCheckDigit_ninth_witness :
  isValidVIN (<[8%nat:=code "2"]> (lit "1HGCM8260ZA004352")) = Return true.
Proof.
  destruct (computeCheckDigit_ninth (lit "1HGCM8260ZA004352") (code "2"))
    as (_ & d & Hd & _ & Hiff).
  - reflexivity.
  - by_evaluation.
  - by_evaluation.
  - apply Hiff. vm_compute in Hd. injection Hd as <-. reflexivity.
Defined.



(** X14: the check digit detects every substitution that changes a
    transliteration value: in a string of 17 permitted characters, a
    character outside the 9th position replaced by a permitted one of
    another value changes the result of [computeCheckDigit]; a valid VIN
    changed this way is rejected with INVALID_CHECK_DIGIT alone. *)
Theorem substitution_detected_by_check_digit (v : jsstring) (i : nat) (a c : N)
    (Hlen : length v = 17%nat)
    (Hperm : Forall (λ u, u ∈ permitted_alphabet) v)
    (Hi : i ≠ 8%nat)
    (Ha : v !! i = Some a)
    (Hc : c ∈ permitted_alphabet)
    (Hval : MAP !! [c] ≠ MAP !! [a]) :
  computeCheckDigit (<[i:=c]> v) ≠ computeCheckDigit v
  ∧ (isValidVIN v = Return true ->
     ∃ res, validateVIN (<[i:=c]> v) = Return res
            ∧ errors res = [INVALID_CHECK_DIGIT]).
Proof.
  assert (Hne : computeCheckDigit (<[i:=c]> v) ≠ computeCheckDigit v).
  { destruct (computeCheckDigit_permitted v Hlen Hperm)
      as (vals & Hvals & Hbound & Hret).
    pose proof (lookup_lt_Some _ _ _ Ha) as Hlt.
    destruct (Forall2_lookup_l _ _ _ _ _ Hvals Ha) as (va & Hva & Hmapa).
    apply class_permitted, MAP_class in Hc as [vc Hmapc].
    rewrite (computeCheckDigit_insert v vals i c vc Hlen Hvals Hmapc), Hret.
    intros [= Heq]. apply check_character_mod_inj in Heq.
    destruct (WEIGHTS_in_range i ltac:(unfold VIN_LENGTH; lia)) as [w Hw].
    pose proof (dot_insert vals WEIGHTS i va vc w Hva Hw) as Hdot.
    pose proof (remainder_shift _ _ _ _ Hdot Heq) as Hrem.
    pose proof (below_bounds_check _ 11 10 10 17 substitution_detected_check
      (dot vals WEIGHTS mod 11) va vc (N.of_nat i)) as Hchk.
    unfold substitution_detected in Hchk.
    rewrite (weight_lookup i w Hw) in Hchk.
    assert (Hvc : vc < 10) by (apply MAP_value_le_9 in Hmapc; lia).
    assert (Hvab : va < 10) by (apply MAP_value_le_9 in Hmapa; lia).
    rewrite (proj2 (N.eqb_neq (N.of_nat i) 8)) in Hchk by lia.
    rewrite (proj2 (N.eqb_eq _ _) Hrem) in Hchk. cbn [negb andb implb] in Hchk.
    apply N.eqb_eq in Hchk; [|by apply N.mod_upper_bound|lia|lia|lia].
    congruence. }
  split; [exact Hne|]. intros Hvalid.
  apply (rejected_by_check_digit v); try done.
  - by rewrite length_insert.
  - apply Forall_insert; done.
  - by rewrite list_lookup_insert_ne.
Qed.

Lemma substitution_detected_by_check_digit_witness :
  ∃ res, validateVIN (lit "1HGCM82633A004353") = Return res
         ∧ errors res = [INVALID_CHECK_DIGIT].
Proof.
  destruct (substitution_detected_by_check_digit
              (lit "1HGCM82633A004352") 16 (code "2") (code "3"))
    as [_ Hrej].
  - reflexivity.
  - by_evaluation.
  - lia.
  - reflexivity.
  - by_evaluation.
  - vm_compute. congruence.
  - apply Hrej. vm_compute. reflexivity.
Defined.

(** X15: the check digit detects every swap of two neighbours with
    different transliteration values, when neither stands at the 9th
    position: the swap changes the result of [computeCheckDigit], and a
    valid VIN changed this way is rejected with INVALID_CHECK_DIGIT
    alone. *)
Theorem transposition_detected_by_check_digit (v : jsstring) (i : nat) (a b : N)
    (Hlen : length v = 17%nat)
    (Hperm : Forall (λ u, u ∈ permitted_alphabet) v)
    (Hi : i ≠ 7%nat ∧ i ≠ 8%nat)
    (Ha : v !! i = Some a)
    (Hb : v !! S i = Some b)
    (Hval : MAP !! [a] ≠ MAP !! [b]) :
  computeCheckDigit (<[i:=b]> (<[S i:=a]> v)) ≠ computeCheckDigit v
  ∧ (isValidVIN v = Return true ->
     ∃ res, validateVIN (<[i:=b]> (<[S i:=a]> v)) = Return res
            ∧ errors res = [INVALID_CHECK_DIGIT]).
Proof.
  destruct Hi as [Hi7 Hi8].
  pose proof (lookup_lt_Some _ _ _ Hb) as Hlt.
  assert (Hpa : a ∈ permitted_alphabet).
  { rewrite Forall_forall in Hperm. by eapply Hperm, list_elem_of_lookup_2. }
  assert (Hpb : b ∈ permitted_alphabet).
  { rewrite Forall_forall in Hperm. by eapply Hperm, list_elem_of_lookup_2. }
  assert (Hne : computeCheckDigit (<[i:=b]> (<[S i:=a]> v))
                ≠ computeCheckDigit v).
  { destruct (computeCheckDigit_permitted v Hlen Hperm)
      as (vals & Hvals & Hbound & Hret).
    destruct (Forall2_lookup_l _ _ _ _ _ Hvals Ha) as (va & Hva & Hmapa).
    destruct (Forall2_lookup_l _ _ _ _ _ Hvals Hb) as (vb & Hvb & Hmapb).
    assert (Hvals1 : Forall2 (λ u val, MAP !! [u] = Some val)
                       (<[S i:=a]> v) (<[S i:=va]> vals))
      by by apply Forall2_insert.
    rewrite (computeCheckDigit_insert _ _ i b vb
               ltac:(by rewrite length_insert) Hvals1 Hmapb), Hret.
    intros [= Heq]. apply check_character_mod_inj in Heq.
    destruct (WEIGHTS_in_range i ltac:(unfold VIN_LENGTH; lia)) as [w1 Hw1].
    destruct (WEIGHTS_in_range (S i) ltac:(unfold VIN_LENGTH; lia))
      as [w2 Hw2].
    pose proof (dot_insert vals WEIGHTS (S i) vb va w2 Hvb Hw2) as Hdot1.
    assert (Hva1 : <[S i:=va]> vals !! i = Some va).
    { by rewrite list_lookup_insert_ne by lia. }
    pose proof (dot_insert _ WEIGHTS i va vb w1 Hva1 Hw1) as Hdot2.
    assert (Hdot : dot (<[i:=vb]> (<[S i:=va]> vals)) WEIGHTS
                   + (va * w1 + vb * w2)
                   = dot vals WEIGHTS + (vb * w1 + va * w2)) by lia.
    pose proof (remainder_shift _ _ _ _ Hdot Heq) as Hrem.
    pose proof (below_bounds_check _ 11 10 10 16 transposition_detected_check
      (dot vals WEIGHTS mod 11) va vb (N.of_nat i)) as Hchk.
    unfold transposition_detected in Hchk.
    rewrite (weight_lookup i w1 Hw1) in Hchk.
    replace (N.of_nat i + 1) with (N.of_nat (S i)) in Hchk by lia.
    rewrite (weight_lookup (S i) w2 Hw2) in Hchk.
    assert (Hvab : va < 10) by (apply MAP_value_le_9 in Hmapa; lia).
    assert (Hvbb : vb < 10) by (apply MAP_value_le_9 in Hmapb; lia).
    rewrite (proj2 (N.eqb_neq (N.of_nat i) 7)) in Hchk by lia.
    rewrite (proj2 (N.eqb_neq (N.of_nat i) 8)) in Hchk by lia.
    rewrite <- !N.add_assoc in Hchk.
    rewrite (proj2 (N.eqb_eq _ _) Hrem) in Hchk. cbn [negb andb implb] in Hchk.
    apply N.eqb_eq in Hchk; [|by apply N.mod_upper_bound|lia|lia|lia].
    congruence. }
  split; [exact Hne|]. intros Hvalid.
  apply (rejected_by_check_digit v); try done.
  - by rewrite !length_insert.
  - apply Forall_insert; [|done]. by apply Forall_insert.
  - rewrite !list_lookup_insert_ne by lia. done.
Qed.

Lemma transposition_detected_by_check_digit_witness :
  ∃ res, validateVIN (lit "1HGCM82633A004325") = Return res
         ∧ errors res = [INVALID_CHECK_DIGIT].
Proof.
  destruct (transposition_detected_by_check_digit
              (lit "1HGCM82633A004352") 15 (code "5") (code "2"))
    as [_ Hrej].
  - reflexivity.
  - by_evaluation.
  - lia.
  - reflexivity.
  - reflexivity.
  - vm_compute. congruence.
  - apply Hrej. vm_compute. reflexivity.
Defined.

(** X16: the errors [assertVIN] throws: the message for a wrong length, the
    message for 17 code units that are not all of the permitted alphabet,
    both with the expected check digit ["N/A"], and the message for a
    wrong check digit, with the digit [computeCheckDigit] returns. *)
Theorem assertVIN_throws (x : jsstring) (e : error)
    (He : assertVIN x = Throw e) :
  (length (normalizeVIN x) ≠ 17%nat
   ∧ e = Error (lit "Invalid VIN: INVALID_LENGTH, INVALID_CHARACTERS (expected check digit: N/A)"))
  ∨ (length (normalizeVIN x) = 17%nat
     ∧ ¬ Forall (λ u, u ∈ permitted_alphabet) (normalizeVIN x)
     ∧ e = Error (lit "Invalid VIN: INVALID_CHARACTERS (expected check digit: N/A)"))
  ∨ (∃ d, d ∈ check_digits
       ∧ computeCheckDigit (normalizeVIN x) = Return [d]
       ∧ normalizeVIN x !! 8%nat ≠ Some d
       ∧ e = Error (lit "Invalid VIN: INVALID_CHECK_DIGIT (expected check digit: "
                    ++ [d] ++ lit ")")).
Proof.
  unfold assertVIN in He.
  destruct (validateVIN_outcome x) as (errs & expected & Hout & Hres).
  rewrite Hres in He. cbn [isValid errors expectedCheckDigit vin] in He.
  destruct Hout as [Hlen Ht|e' Hlen Ht Hc|c Hlen Ht Hc Hat|c Hlen Ht Hc Hat].
  - left. split; [done|]. cbn in He. by injection He as <-.
  - right. left. split; [done|]. split.
    + apply VIN_REGEX_test_false in Ht. tauto.
    + cbn in He. by injection He as <-.
  - right. right. destruct (computeCheckDigit_digit _ _ Hc) as (d & -> & Hd).
    exists d. split; [done|]. split; [done|]. split.
    + intros H8. apply Hat. unfold at_index. by rewrite H8.
    + cbn in He. by injection He as <-.
  - done.
Qed.

Lemma assertVIN_throws_witness :
  ∃ d, computeCheckDigit (lit "1HGCM82603A004352") = Return [d]
       ∧ assertVIN (lit "1HGCM82603A004352") =
           Throw (Error (lit "Invalid VIN: INVALID_CHECK_DIGIT (expected check digit: "
                         ++ [d] ++ lit ")")).
Proof.
  assert (He : assertVIN (lit "1HGCM82603A004352") =
               Throw (Error (lit "Invalid VIN: INVALID_CHECK_DIGIT (expected check digit: 3)")))
    by (vm_compute; reflexivity).
  destruct (assertVIN_throws _ _ He)
    as [[Hlen _]|[(_ & Hperm & _)|(d & _ & Hd & _ & Hmsg)]].
  - exfalso. apply Hlen. vm_compute. reflexivity.
  - exfalso. apply Hperm. by_evaluation.
  - exists d. split; [exact Hd|]. rewrite He. f_equal. exact Hmsg.
Defined.
